(** * The WhatsApp transcript parser [parseWhatsAppChat]

    A shallow embedding of the parser found in the page component
    (function [parseWhatsAppChat]) and the properties of it that the
    specification states.

    JavaScript strings are sequences of UTF-16 code units; a string is
    modelled as the list of its code units, each an [N].  The regular
    expressions of the source are embedded as terms of a small syntax
    and run by a backtracking matcher written in the continuation style
    of the ECMAScript definition (a matcher takes a state and a
    continuation and yields the first success in priority order). *)

From Stdlib Require Import String Ascii.
From Stdlib Require Import List NArith Arith Bool Lia.
From Stdlib Require Import Sorting.Sorted Sorting.Permutation.
Import ListNotations.

Local Open Scope N_scope.
Local Open Scope list_scope.

(* ================================================================= *)
(** ** Strings *)

Definition jsstring := list N.

(** A literal of the source, as code units. *)
Definition str (s : string) : jsstring :=
  map N_of_ascii (list_ascii_of_string s).

Definition jsstring_eq_dec : forall a b : jsstring, {a = b} + {a <> b} :=
  list_eq_dec N.eq_dec.

(** [\s] of a regular expression, which is also what
    [String.prototype.trim] strips: WhiteSpace and LineTerminator. *)
Definition is_space (c : N) : bool :=
  (c =? 9) || (c =? 10) || (c =? 11) || (c =? 12) || (c =? 13) ||
  (c =? 32) || (c =? 160) || (c =? 5760) ||
  ((8192 <=? c) && (c <=? 8202)) ||
  (c =? 8232) || (c =? 8233) || (c =? 8239) || (c =? 8287) ||
  (c =? 12288) || (c =? 65279).

(** [\d]: the ten ASCII digits. *)
Definition is_digit (c : N) : bool := (48 <=? c) && (c <=? 57).

(** [.] without the [s] flag: anything but a line terminator. *)
Definition is_dot (c : N) : bool :=
  negb ((c =? 10) || (c =? 13) || (c =? 8232) || (c =? 8233)).

(** A pattern character that is not a letter: the [i] flag leaves it
    alone, and no other code unit canonicalizes to it. *)
Definition lit (a : ascii) (c : N) : bool := c =? N_of_ascii a.

(** Canonicalize of the [i] flag, on the code units that matter here:
    the only code units whose upper case is an ASCII capital are that
    capital and its ASCII lower-case letter (a code unit above 127 is
    never mapped into ASCII). *)
Definition Canonicalize (c : N) : N :=
  if (97 <=? c) && (c <=? 122) then c - 32 else c.

(** A pattern letter under the [i] flag. *)
Definition lit_i (a : ascii) (c : N) : bool :=
  Canonicalize c =? Canonicalize (N_of_ascii a).

(** The class [[AP]] under the [i] flag. *)
Definition is_AP (c : N) : bool := lit_i "A" c || lit_i "P" c.

(** The class [[^:]]. *)
Definition not_colon (c : N) : bool := negb (c =? 58).

Fixpoint dropWhile (p : N -> bool) (s : jsstring) : jsstring :=
  match s with
  | [] => []
  | c :: s' => if p c then dropWhile p s' else s
  end.

(** [String.prototype.trim]. *)
Definition trim (s : jsstring) : jsstring :=
  rev (dropWhile is_space (rev (dropWhile is_space s))).

(** [s.split(sep)] for a one-character separator: never an empty array,
    the empty string gives one empty piece. *)
Fixpoint split (sep : N) (s : jsstring) : list jsstring :=
  match s with
  | [] => [[]]
  | c :: s' =>
      if c =? sep then [] :: split sep s'
      else match split sep s' with
           | piece :: pieces => (c :: piece) :: pieces
           | [] => [[c]]
           end
  end.

(** [pieces.join(sep)]. *)
Fixpoint join (sep : jsstring) (pieces : list jsstring) : jsstring :=
  match pieces with
  | [] => []
  | [p] => p
  | p :: ps => p ++ sep ++ join sep ps
  end.

(** Comparison of strings by code units, the order of [<] on strings
    and of [Array.prototype.sort] without a comparator. *)
Fixpoint str_leb (a b : jsstring) : bool :=
  match a, b with
  | [], _ => true
  | _ :: _, [] => false
  | x :: a', y :: b' =>
      if x <? y then true else if y <? x then false else str_leb a' b'
  end.

Definition str_le (a b : jsstring) : Prop := str_leb a b = true.

(* ================================================================= *)
(** ** Regular expressions *)

(** The fragment of the regular-expression syntax the four patterns use.
    [Rep c lo hi] is a greedy quantifier on a one-character atom
    ([\d{1,2}], [\s*], [[^:]+], [.*]); [Opt r] is [(?:r)?]; [Cap r] is a
    capturing group. *)
Inductive regex : Type :=
| Bol                                   (* ^ , no m flag *)
| Eol                                   (* $ , no m flag *)
| Chr (c : N -> bool)
| Rep (c : N -> bool) (lo : nat) (hi : option nat)
| Opt (r : regex)
| Cat (r1 r2 : regex)
| Cap (r : regex).

Declare Scope regex_scope.
Delimit Scope regex_scope with re.
Bind Scope regex_scope with regex.
Infix ";;" := Cat (at level 60, right associativity) : regex_scope.

(** The state of a match: how many code units are consumed, what is
    left of the input, and the captures closed so far, in the order the
    groups closed.  No group of the four patterns is nested in another
    or optional, so the k-th capture closed is group k. *)
Record MatchState : Type := mkState {
  endIndex : nat;
  rest : jsstring;
  captures : list jsstring
}.

(** RepeatMatcher on a one-character atom, greedy: one more iteration is
    tried first, and the continuation on what is left only after that
    failed. *)
Fixpoint rep {A : Type} (c : N -> bool) (lo : nat) (hi : option nat)
  (e : nat) (s : jsstring) (k : nat -> jsstring -> option A) : option A :=
  let stop := match lo with O => k e s | S _ => None end in
  match hi with
  | Some O => stop
  | _ =>
      match s with
      | ch :: s' =>
          if c ch then
            match rep c (pred lo) (option_map pred hi) (S e) s' k with
            | Some z => Some z
            | None => stop
            end
          else stop
      | [] => stop
      end
  end.

Fixpoint m {A : Type} (r : regex) (x : MatchState)
  (k : MatchState -> option A) : option A :=
  match r with
  | Bol => if (endIndex x =? 0)%nat then k x else None
  | Eol => match rest x with [] => k x | _ :: _ => None end
  | Chr c =>
      match rest x with
      | ch :: s =>
          if c ch then k (mkState (S (endIndex x)) s (captures x)) else None
      | [] => None
      end
  | Rep c lo hi =>
      rep c lo hi (endIndex x) (rest x)
        (fun e s => k (mkState e s (captures x)))
  | Opt r1 =>
      (* an iteration that consumed nothing is rejected *)
      match m r1 x (fun y => if (endIndex y =? endIndex x)%nat
                             then None else k y) with
      | Some z => Some z
      | None => k x
      end
  | Cat r1 r2 => m r1 x (fun y => m r2 y k)
  | Cap r1 =>
      m r1 x (fun y =>
        k (mkState (endIndex y) (rest y)
             (captures y ++ [firstn (endIndex y - endIndex x) (rest x)])))
  end.

(** [line.match(pattern)] for a pattern without the [g] flag: the first
    start index, from 0 on, at which the pattern matches; the result is
    the captures of that match. *)
Fixpoint search (r : regex) (e : nat) (s : jsstring)
  : option (list jsstring) :=
  match m r (mkState e s []) (fun y => Some (captures y)) with
  | Some caps => Some caps
  | None =>
      match s with
      | [] => None
      | _ :: s' => search r (S e) s'
      end
  end.

Definition rx_match (r : regex) (line : jsstring)
  : option (list jsstring) :=
  search r 0 line.

Section Patterns.
Local Open Scope regex_scope.
Local Open Scope char_scope.

Local Abbreviation d12 := (Rep is_digit 1 (Some 2%nat)).   (* \d{1,2} *)
Local Abbreviation d2 := (Rep is_digit 2 (Some 2%nat)).    (* \d{2} *)
Local Abbreviation d24 := (Rep is_digit 2 (Some 4%nat)).   (* \d{2,4} *)
Local Abbreviation ws := (Rep is_space 0 None).            (* \s* *)

(** [/^\[(\d{1,2}\/\d{1,2}\/\d{2,4}),\s*(\d{1,2}:\d{2}(?::\d{2})?(?:\s*[AP]M)?)\]\s*([^:]+):\s*( .* )$/i], the last group written with spaces here *)
Definition pattern1 : regex :=
  Bol ;; Chr (lit "[") ;;
  Cap (d12 ;; Chr (lit "/") ;; d12 ;; Chr (lit "/") ;; d24) ;;
  Chr (lit ",") ;; ws ;;
  Cap (d12 ;; Chr (lit ":") ;; d2 ;; Opt (Chr (lit ":") ;; d2) ;;
       Opt (ws ;; Chr is_AP ;; Chr (lit_i "M"))) ;;
  Chr (lit "]") ;; ws ;;
  Cap (Rep not_colon 1 None) ;; Chr (lit ":") ;; ws ;;
  Cap (Rep is_dot 0 None) ;; Eol.

(** [/^(\d{1,2}\/\d{1,2}\/\d{2,4}),\s*(\d{1,2}:\d{2}(?:\s*[AP]M)?)\s*-\s*([^:]+):\s*( .* )$/i], the last group written with spaces here *)
Definition pattern2 : regex :=
  Bol ;;
  Cap (d12 ;; Chr (lit "/") ;; d12 ;; Chr (lit "/") ;; d24) ;;
  Chr (lit ",") ;; ws ;;
  Cap (d12 ;; Chr (lit ":") ;; d2 ;;
       Opt (ws ;; Chr is_AP ;; Chr (lit_i "M"))) ;;
  ws ;; Chr (lit "-") ;; ws ;;
  Cap (Rep not_colon 1 None) ;; Chr (lit ":") ;; ws ;;
  Cap (Rep is_dot 0 None) ;; Eol.

(** [/^(\d{1,2}\/\d{1,2}\/\d{2}),\s*(\d{1,2}:\d{2}(?:\s*[AP]M)?)\s*-\s*([^:]+):\s*( .* )$/i], the last group written with spaces here *)
Definition pattern3 : regex :=
  Bol ;;
  Cap (d12 ;; Chr (lit "/") ;; d12 ;; Chr (lit "/") ;; d2) ;;
  Chr (lit ",") ;; ws ;;
  Cap (d12 ;; Chr (lit ":") ;; d2 ;;
       Opt (ws ;; Chr is_AP ;; Chr (lit_i "M"))) ;;
  ws ;; Chr (lit "-") ;; ws ;;
  Cap (Rep not_colon 1 None) ;; Chr (lit ":") ;; ws ;;
  Cap (Rep is_dot 0 None) ;; Eol.

(** [/^(\d{1,2}\/\d{1,2}\/\d{2}),\s*(\d{1,2}:\d{2}\s*[AP]M)\s*-\s*([^:]+):\s*( .* )$/i], the last group written with spaces here *)
Definition pattern4 : regex :=
  Bol ;;
  Cap (d12 ;; Chr (lit "/") ;; d12 ;; Chr (lit "/") ;; d2) ;;
  Chr (lit ",") ;; ws ;;
  Cap (d12 ;; Chr (lit ":") ;; d2 ;; ws ;; Chr is_AP ;; Chr (lit_i "M")) ;;
  ws ;; Chr (lit "-") ;; ws ;;
  Cap (Rep not_colon 1 None) ;; Chr (lit ":") ;; ws ;;
  Cap (Rep is_dot 0 None) ;; Eol.

Definition patterns : list regex :=
  [pattern1; pattern2; pattern3; pattern4].

End Patterns.

(* ================================================================= *)
(** ** The parser *)

Record Message : Type := mkMessage {
  timestamp : jsstring;
  sender : jsstring;
  message : jsstring;
  date : jsstring;
  time : jsstring
}.

Record DateRange : Type := mkDateRange {
  start : jsstring;
  end_ : jsstring
}.

Record ParsedData : Type := mkParsedData {
  groupName : jsstring;
  messages : list Message;
  participants : list jsstring;
  messageCount : nat;
  dateRange : DateRange
}.

(** [participantsSet.add(x)]: a [Set] keeps its elements in insertion
    order and ignores an element it already has. *)
Definition set_add (x : jsstring) (set : list jsstring) : list jsstring :=
  if in_dec jsstring_eq_dec x set then set else set ++ [x].

(** [Array.prototype.sort] without a comparator, on strings. *)
Fixpoint insert_sorted (x : jsstring) (l : list jsstring) : list jsstring :=
  match l with
  | [] => [x]
  | y :: l' => if str_leb x y then x :: l else y :: insert_sorted x l'
  end.

Fixpoint sort (l : list jsstring) : list jsstring :=
  match l with
  | [] => []
  | x :: l' => insert_sorted x (sort l')
  end.

(** [!line.trim()]. *)
Definition blank (line : jsstring) : bool :=
  match trim line with [] => true | _ :: _ => false end.

(** The inner loop over the patterns: the captures of the first pattern
    that matches the line. *)
Fixpoint first_match (pats : list regex) (line : jsstring)
  : option (list jsstring) :=
  match pats with
  | [] => None
  | pattern :: pats' =>
      match rx_match pattern line with
      | Some caps => Some caps
      | None => first_match pats' line
      end
  end.

(** The variables of the outer loop. *)
Record LoopState : Type := mkLoop {
  msgs : list Message;
  participantsSet : list jsstring;
  currentMessage : option Message
}.

Definition initial : LoopState := mkLoop [] [] None.

(** [messages.push(currentMessage)] under [if (currentMessage)]. *)
Definition flush (st : LoopState) : list Message :=
  match currentMessage st with
  | Some cur => msgs st ++ [cur]
  | None => msgs st
  end.

(** [const [, date, time, sender, message] = match] and the message
    object built from it. *)
Definition new_message (caps : list jsstring) : Message :=
  let date := nth 0 caps [] in
  let time := nth 1 caps [] in
  let sender := nth 2 caps [] in
  let message := nth 3 caps [] in
  mkMessage (date ++ str ", " ++ time) (trim sender) (trim message)
            date time.

(** [currentMessage.message += '\n' + line]. *)
Definition continue_message (cur : Message) (line : jsstring) : Message :=
  mkMessage (timestamp cur) (sender cur) (message cur ++ [10] ++ line)
            (date cur) (time cur).

(** One round of [for (const line of lines)]. *)
Definition step (pats : list regex) (st : LoopState) (line : jsstring)
  : LoopState :=
  if blank line then st
  else
    match first_match pats line with
    | Some caps =>
        mkLoop (flush st)
               (set_add (trim (nth 2 caps [])) (participantsSet st))
               (Some (new_message caps))
    | None =>
        match currentMessage st with
        | Some cur =>
            mkLoop (msgs st) (participantsSet st)
                   (Some (continue_message cur line))
        | None => st
        end
    end.

Definition scan (pats : list regex) (lines : list jsstring) : LoopState :=
  fold_left (step pats) lines initial.

(** [m.date.split('/').reverse().join('-')], the argument of [new Date]. *)
Definition date_argument (d : jsstring) : jsstring :=
  join (str "-") (rev (split 47 d)).

Section Parser.

(** The [Date] constructor belongs to the host, and on a string that is
    not in the ISO format its result is left to the implementation.
    [DateIsValid s] stands for [!isNaN(new Date(s).getTime())]. *)
Variable DateIsValid : jsstring -> bool.

(** The body of [parseWhatsAppChat] after the pattern table. *)
Definition parseWith (pats : list regex) (text : jsstring)
  : option ParsedData :=
  let lines := split 10 text in
  let st := scan pats lines in
  let messages := flush st in
  match messages with
  | [] => None
  | first :: _ =>
      let dates := map (fun m => date_argument (date m)) messages in
      let validDates := filter DateIsValid dates in
      Some (mkParsedData
              (str "Zero to One")
              messages
              (sort (participantsSet st))
              (length messages)
              (mkDateRange
                 (if (0 <? length validDates)%nat
                  then date first else str "N/A")
                 (if (0 <? length validDates)%nat
                  then date (last messages first) else str "N/A")))
  end.

Definition parseWhatsAppChat (text : jsstring) : option ParsedData :=
  parseWith patterns text.

End Parser.

(* ================================================================= *)
(** ** Auxiliary definitions for the statements *)

(** The messages that the loop emits from a point on: [cur] is the
    message in progress and [lines] what is left of the input.  It is
    shown below to agree with [flush] after [fold_left step]. *)
Fixpoint emit (pats : list regex) (cur : option Message)
  (lines : list jsstring) : list Message :=
  match lines with
  | [] => match cur with Some c => [c] | None => [] end
  | line :: lines' =>
      if blank line then emit pats cur lines'
      else
        match first_match pats line with
        | Some caps =>
            match cur with Some c => [c] | None => [] end
            ++ emit pats (Some (new_message caps)) lines'
        | None =>
            emit pats
              (option_map (fun c => continue_message c line) cur) lines'
        end
  end.

(** A header line: a line that some pattern matches. *)
Definition is_header (pats : list regex) (line : jsstring) : bool :=
  match first_match pats line with Some _ => true | None => false end.

(** The positions of the header lines, counted from [base]. *)
Fixpoint header_indices (pats : list regex) (base : nat)
  (lines : list jsstring) : list nat :=
  match lines with
  | [] => []
  | line :: lines' =>
      if is_header pats line
      then base :: header_indices pats (S base) lines'
      else header_indices pats (S base) lines'
  end.

Definition opt_list {A : Type} (o : option A) : list A :=
  match o with Some a => [a] | None => [] end.

(** What the loop sees in a line: the captures when it starts a
    message, nothing when it is skipped or continues one. *)
Definition header (pats : list regex) (line : jsstring)
  : option (list jsstring) :=
  if blank line then None else first_match pats line.

(** The set holds the senders of the messages pushed and in progress. *)
Definition participants_ok (st : LoopState) : Prop :=
  NoDup (participantsSet st) /\
  forall s, In s (participantsSet st) <-> In s (map sender (flush st)).

(** The message [mg] began at line [i] of [lines]: that line matched,
    and [mg] is the message built from the match, continued by some
    lines. *)
Definition from_header (pats : list regex) (lines : list jsstring)
  (i : nat) (mg : Message) : Prop :=
  exists line caps conts,
    nth_error lines i = Some line /\
    first_match pats line = Some caps /\
    mg = fold_left continue_message conts (new_message caps).

(** The length of the longest prefix of [s] in the class [c]. *)
Fixpoint span (c : N -> bool) (s : jsstring) : nat :=
  match s with
  | ch :: s' => if c ch then S (span c s') else O
  | [] => O
  end.

Definition within (lo : nat) (hi : option nat) (n : nat) : bool :=
  (lo <=? n)%nat &&
  match hi with Some h => (n <=? h)%nat | None => true end.

(** The continuation fails on every input that begins in the class. *)
Definition rejects {A : Type} (c : N -> bool)
  (k : nat -> jsstring -> option A) : Prop :=
  forall e ch s, c ch = true -> k e (ch :: s) = None.

(** Where a run of digits and the character after it leave the match. *)
Definition after_digits (lo : nat) (hi : option nat) (a : ascii)
  (x : MatchState) : option MatchState :=
  let n := span is_digit (rest x) in
  if within lo hi n then
    match skipn n (rest x) with
    | ch :: s =>
        if lit a ch
        then Some (mkState (S (endIndex x + n)) s (captures x))
        else None
    | [] => None
    end
  else None.

(** A string of decimal digits as a number. *)
Definition decimal (s : jsstring) : option N :=
  match s with
  | [] => None
  | _ :: _ =>
      if forallb is_digit s
      then Some (fold_left (fun n c => 10 * n + (c - 48)) s 0)
      else None
  end.

Definition leap_year (y : N) : bool :=
  (y mod 4 =? 0) && (negb (y mod 100 =? 0) || (y mod 400 =? 0)).

Definition days_in_month (y mo : N) : N :=
  if mo =? 2 then (if leap_year y then 29 else 28)
  else if (mo =? 4) || (mo =? 6) || (mo =? 9) || (mo =? 11) then 30
  else 31.

(** The words of the specification for a date token, "a valid
    calendar date under the convention day/month/year": a day, a month
    and a year between slashes, the month from 1 to 12 and the day one
    of that month.  The code has no such test; it asks the host. *)
Definition calendar_day_month_year (token : jsstring) : bool :=
  match split 47 token with
  | [d; mo; y] =>
      match decimal d, decimal mo, decimal y with
      | Some d, Some mo, Some y =>
          (1 <=? mo) && (mo <=? 12) && (1 <=? d) && (d <=? days_in_month y mo)
      | _, _, _ => false
      end
  | _ => false
  end.

Definition is_month (n : N) : bool := (1 <=? n) && (n <=? 12).
Definition is_day (n : N) : bool := (1 <=? n) && (n <=? 31).

(** The host of the page where it is V8 (Chrome, Node):
    [!isNaN(new Date(s).getTime())] on the strings that
    [date_argument] can hand over, three numbers between dashes, the
    first of two to four digits and the others of one or two.
    A first number of four digits followed by a month and a day of two
    digits each is a date of the ISO format.  Anything else goes to the
    older parser, which collects the three numbers and reads them as
    month, day, year when the first is from 1 to 31, and as year, month,
    day otherwise; it wants a month from 1 to 12 and a day from 1 to
    31, and does not look at the length of the month.  So [23-5-12] is
    refused (a month 23) and [2023-2-31] is accepted.  On other strings
    the model answers [false] and says nothing of the host. *)
Definition v8_date_valid (s : jsstring) : bool :=
  match split 45 s with
  | [y; mo; d] =>
      match decimal y, decimal mo, decimal d with
      | Some Y, Some M, Some D =>
          if ((length y =? 4)%nat && (length mo =? 2)%nat && is_month M &&
              (length d =? 2)%nat && is_day D)%bool
          then true
          else if is_day Y then is_month Y && is_day M
               else is_month M && is_day D
      | _, _, _ => false
      end
  | _ => false
  end.

(** The number of capturing groups of a pattern, and whether none of
    them is inside an optional part. *)
Fixpoint ncaps (r : regex) : nat :=
  match r with
  | Cap r1 => S (ncaps r1)
  | Cat r1 r2 => ncaps r1 + ncaps r2
  | Opt r1 => ncaps r1
  | _ => O
  end.

Fixpoint caps_fixed (r : regex) : bool :=
  match r with
  | Cap r1 => caps_fixed r1
  | Cat r1 r2 => caps_fixed r1 && caps_fixed r2
  | Opt r1 => (ncaps r1 =? 0)%nat && caps_fixed r1
  | _ => true
  end.

(** The scenario of the specification. *)
Definition example_text : jsstring :=
  str "[12/5/23, 9:04:01 PM] Alice: Hello there" ++ [10] ++
  str "how are you?" ++ [10] ++
  str "[12/5/23, 9:05:00 PM] Bob: I'm fine".

(** What the specification expects of the scenario. *)
Definition spec_example_result : ParsedData :=
  mkParsedData
    (str "Zero to One")
    [ mkMessage (str "12/5/23, 9:04:01 PM") (str "Alice")
        (str "Hello there" ++ [10] ++ str "how are you?")
        (str "12/5/23") (str "9:04:01 PM");
      mkMessage (str "12/5/23, 9:05:00 PM") (str "Bob")
        (str "I'm fine")
        (str "12/5/23") (str "9:05:00 PM") ]
    [str "Alice"; str "Bob"]
    2
    (mkDateRange (str "12/5/23") (str "12/5/23")).

(** What the parser returns for it on V8: the same but for the range. *)
Definition example_result : ParsedData :=
  mkParsedData
    (groupName spec_example_result)
    (messages spec_example_result)
    (participants spec_example_result)
    (messageCount spec_example_result)
    (mkDateRange (str "N/A") (str "N/A")).

Definition example_header : jsstring :=
  str "[12/5/23, 9:04:01 PM] Alice: Hello there".

Definition example_captures : list jsstring :=
  [str "12/5/23"; str "9:04:01 PM"; str "Alice"; str "Hello there"].

(* ================================================================= *)
(** ** The page around the parser *)

(** [a === b] on strings. *)
Definition str_eqb (a b : jsstring) : bool :=
  if jsstring_eq_dec a b then true else false.

(** [s.startsWith(search)], the step of [includes]. *)
Fixpoint starts_with (search s : jsstring) : bool :=
  match search, s with
  | [], _ => true
  | _ :: _, [] => false
  | a :: search', b :: s' => (a =? b) && starts_with search' s'
  end.

(** [s.includes(search)]: [search] occurs in [s] at some index. *)
Fixpoint includes (s search : jsstring) : bool :=
  if starts_with search s then true
  else match s with
       | [] => false
       | _ :: s' => includes s' search
       end.

(** An uploaded file: its name, and what [file.text()] resolves to,
    nothing when the promise is rejected. *)
Record File : Type := mkFile {
  name : jsstring;
  file_text : option jsstring
}.

(** The state variables of the component, with their [useState]
    defaults in [initial_page]. *)
Record PageState : Type := mkPage {
  file : option File;
  parsedData : option ParsedData;
  error : jsstring;
  loading : bool;
  searchTerm : jsstring;
  selectedSender : jsstring
}.

Definition initial_page : PageState :=
  mkPage None None [] false [] (str "all").

Definition setFile (v : option File) (st : PageState) : PageState :=
  mkPage v (parsedData st) (error st) (loading st)
         (searchTerm st) (selectedSender st).

Definition setParsedData (v : option ParsedData) (st : PageState)
  : PageState :=
  mkPage (file st) v (error st) (loading st)
         (searchTerm st) (selectedSender st).

Definition setError (v : jsstring) (st : PageState) : PageState :=
  mkPage (file st) (parsedData st) v (loading st)
         (searchTerm st) (selectedSender st).

Definition setLoading (v : bool) (st : PageState) : PageState :=
  mkPage (file st) (parsedData st) (error st) v
         (searchTerm st) (selectedSender st).

Definition setSearchTerm (v : jsstring) (st : PageState) : PageState :=
  mkPage (file st) (parsedData st) (error st) (loading st)
         v (selectedSender st).

Definition setSelectedSender (v : jsstring) (st : PageState) : PageState :=
  mkPage (file st) (parsedData st) (error st) (loading st)
         (searchTerm st) v.

Definition could_not_parse : jsstring :=
  str "Could not parse WhatsApp chat. Please ensure you uploaded a valid WhatsApp chat export (.txt file).".

Definition error_reading : jsstring :=
  str "Error reading file. Please try again.".

Section Page.

Variable DateIsValid : jsstring -> bool.

(** [String.prototype.toLowerCase] follows the case mappings of
    Unicode, which belong to the host. *)
Variable toLowerCase : jsstring -> jsstring.

(** [handleFileUpload] has an [await] in it, so it runs in two parts.
    The first, up to the [await], takes [e.target.files] and leaves the
    file whose text is awaited.  The second runs when the promise of
    [uploadedFile.text()] has settled, on the state that it finds then:
    the page is free to run other handlers in between, another upload
    among them. *)
Definition handleFileUpload_start (st : PageState) (files : list File)
  : PageState * option File :=
  match files with
  | [] => (st, None)
  | uploadedFile :: _ =>
      let st := setFile (Some uploadedFile) st in
      let st := setError [] st in
      let st := setLoading true st in
      (st, Some uploadedFile)
  end.

Definition handleFileUpload_resume (st : PageState) (uploadedFile : File)
  : PageState :=
  let st :=
    match file_text uploadedFile with
    | Some text =>
        match parseWhatsAppChat DateIsValid text with
        | None =>
            setParsedData None (setError could_not_parse st)
        | Some parsed =>
            if (length (messages parsed) =? 0)%nat
            then setParsedData None (setError could_not_parse st)
            else setParsedData (Some parsed) st
        end
    | None => setParsedData None (setError error_reading st)
    end in
  setLoading false st.

(** The handler when nothing else runs between its two parts. *)
Definition handleFileUpload_alone (st : PageState) (files : list File)
  : PageState :=
  match handleFileUpload_start st files with
  | (st', Some uploadedFile) => handleFileUpload_resume st' uploadedFile
  | (st', None) => st'
  end.

(** What can happen on the page, one thing at a time: files are chosen
    (the first part of the handler), the reading of a file settles (its
    second part), the search box or the sender list changes. *)
Inductive page_event : Type :=
| FilesChosen (files : list File)
| ReadSettled (uploadedFile : File)
| SearchTyped (term : jsstring)
| SenderChosen (sender : jsstring).

Definition page_step (st : PageState) (ev : page_event) : PageState :=
  match ev with
  | FilesChosen files => fst (handleFileUpload_start st files)
  | ReadSettled uploadedFile => handleFileUpload_resume st uploadedFile
  | SearchTyped term => setSearchTerm term st
  | SenderChosen sender => setSelectedSender sender st
  end.

Definition page_run (events : list page_event) (st : PageState)
  : PageState :=
  fold_left page_step events st.

(** [filteredMessages]. *)
Definition filteredMessages (st : PageState) : list Message :=
  match parsedData st with
  | None => []
  | Some pd =>
      filter
        (fun msg =>
           let matchesSearch :=
             includes (toLowerCase (message msg))
                      (toLowerCase (searchTerm st)) ||
             includes (toLowerCase (sender msg))
                      (toLowerCase (searchTerm st)) in
           let matchesSender :=
             str_eqb (selectedSender st) (str "all") ||
             str_eqb (sender msg) (selectedSender st) in
           matchesSearch && matchesSender)
        (messages pd)
  end.

End Page.

(** The count shown beside a participant:
    [messages.filter(m => m.sender === participant).length]. *)
Definition participant_count (pd : ParsedData) (participant : jsstring)
  : nat :=
  length (filter (fun m => str_eqb (sender m) participant) (messages pd)).

(** [message.replace] with the [g] flag of every double quote, code
    unit 34, by two of them. *)
Fixpoint double_quotes (s : jsstring) : jsstring :=
  match s with
  | [] => []
  | c :: s' =>
      if c =? 34 then 34 :: 34 :: double_quotes s'
      else c :: double_quotes s'
  end.

(** One line of [downloadCSV]. *)
Definition csv_row (msg : Message) : jsstring :=
  join (str ",")
    [date msg; time msg; sender msg;
     [34] ++ double_quotes (message msg) ++ [34]].

(** [csvContent] of [downloadCSV]. *)
Definition csvContent (pd : ParsedData) : jsstring :=
  join [10]
    (join (str ",") [str "Date"; str "Time"; str "Sender"; str "Message"]
     :: map csv_row (messages pd)).

(* ================================================================= *)
(** ** What a match says about the line *)

(** The words of a pattern: [Matches r e w after caps] says that [r],
    begun at index [e], can consume [w] with [after] left of the input
    and close the groups [caps] on the way. *)
Inductive Matches : regex -> nat -> jsstring -> jsstring ->
                    list jsstring -> Prop :=
| Matches_Bol after :
    Matches Bol 0 [] after []
| Matches_Eol e :
    Matches Eol e [] [] []
| Matches_Chr c e ch after :
    c ch = true -> Matches (Chr c) e [ch] after []
| Matches_Rep c lo hi e w after :
    forallb c w = true ->
    (lo <= length w)%nat ->
    match hi with Some h => (length w <= h)%nat | None => True end ->
    Matches (Rep c lo hi) e w after []
| Matches_Opt_skip r e after :
    Matches (Opt r) e [] after []
| Matches_Opt_take r e w after caps :
    Matches r e w after caps -> Matches (Opt r) e w after caps
| Matches_Cat r1 r2 e w1 w2 after caps1 caps2 :
    Matches r1 e w1 (w2 ++ after) caps1 ->
    Matches r2 (e + length w1) w2 after caps2 ->
    Matches (Cat r1 r2) e (w1 ++ w2) after (caps1 ++ caps2)
| Matches_Cap r e w after caps :
    Matches r e w after caps -> Matches (Cap r) e w after (caps ++ [w]).

(** Between [lo] and [hi] digits. *)
Definition digits (lo hi : nat) (w : jsstring) : Prop :=
  forallb is_digit w = true /\ (lo <= length w <= hi)%nat.

(** Day, month and year between slashes. *)
Definition date_shape (d : jsstring) : Prop :=
  exists dd mm yy,
    d = dd ++ [47] ++ mm ++ [47] ++ yy /\
    digits 1 2 dd /\ digits 1 2 mm /\ digits 2 4 yy.

(** What a time token is made of. *)
Definition time_char (c : N) : bool :=
  is_digit c || (c =? 58) || is_space c || is_AP c || lit_i "M" c.

(** The parts of a header line: the bracket or nothing, the date, a
    comma, the time, the bracket or the dash, the sender, a colon and
    the text, with white space where the patterns allow it. *)
Definition header_anatomy (line : jsstring) (caps : list jsstring) : Prop :=
  exists d t s b opening w1 sep w2,
    caps = [d; t; s; b] /\
    line = opening ++ d ++ [44] ++ w1 ++ t ++ sep ++ s ++ [58] ++ w2 ++ b /\
    date_shape d /\
    forallb time_char t = true /\
    s <> [] /\ forallb not_colon s = true /\
    forallb is_dot b = true /\
    forallb is_space w1 = true /\ forallb is_space w2 = true /\
    ((opening = [91] /\
      exists w, sep = [93] ++ w /\ forallb is_space w = true) \/
     (opening = [] /\
      exists w w', sep = w ++ [45] ++ w' /\
                   forallb is_space w = true /\
                   forallb is_space w' = true)).

(** Where a message comes from: a header line of the input, and the
    lines of the input, neither blank nor headers, that continued it. *)
Definition message_origin (lines : list jsstring) (mg : Message) : Prop :=
  exists line caps conts,
    In line lines /\
    first_match patterns line = Some caps /\
    Forall (fun l => In l lines /\ blank l = false /\
                     first_match patterns l = None) conts /\
    mg = fold_left continue_message conts (new_message caps).

(** The messages of a parse, none when there is no result. *)
Definition parsed_messages (parsed : option ParsedData) : list Message :=
  match parsed with Some r => messages r | None => [] end.

(** A reader of comma-separated values in the dialect that
    [csvContent] writes: records end at a line feed, fields at a comma,
    a field that begins with a quote runs to its closing quote, and a
    quote doubled inside it stands for one.  [field] holds the field
    being read, backwards, and [record] the fields read, backwards. *)
Inductive csv_mode : Type := AtFieldStart | InPlain | InQuoted | AfterQuote.

Fixpoint read_csv (mode : csv_mode) (field : jsstring)
  (record : list jsstring) (s : jsstring) : list (list jsstring) :=
  match s with
  | [] => [rev (rev field :: record)]
  | c :: s' =>
      let plain :=
        if c =? 44 then read_csv AtFieldStart [] (rev field :: record) s'
        else if c =? 10
             then rev (rev field :: record) :: read_csv AtFieldStart [] [] s'
             else read_csv InPlain (c :: field) record s' in
      match mode with
      | AtFieldStart =>
          if c =? 34 then read_csv InQuoted [] record s' else plain
      | InPlain => plain
      | InQuoted =>
          if c =? 34 then read_csv AfterQuote field record s'
          else read_csv InQuoted (c :: field) record s'
      | AfterQuote =>
          if c =? 34 then read_csv InQuoted (34 :: field) record s'
          else plain
      end
  end.

Definition read_csv_document (s : jsstring) : list (list jsstring) :=
  read_csv AtFieldStart [] [] s.

(** A field that needs no quotes: no comma, no quote, no line feed. *)
Definition plain_field (f : jsstring) : Prop :=
  ~ In 44 f /\ ~ In 34 f /\ ~ In 10 f.

(** A message whose date, time and sender need no quotes. *)
Definition plain_message (mg : Message) : Prop :=
  plain_field (date mg) /\ plain_field (time mg) /\ plain_field (sender mg).

(** Lower case on the ASCII letters, a stand-in for the host's
    [toLowerCase] where an instance is wanted. *)
Definition ascii_lower (s : jsstring) : jsstring :=
  map (fun c => if (65 <=? c) && (c <=? 90) then c + 32 else c) s.

(** The page once the scenario is parsed, and with Alice chosen. *)
Definition example_page : PageState :=
  mkPage None (Some example_result) [] false [] (str "all").

Definition example_page_alice : PageState :=
  mkPage None (Some example_result) [] false [] (str "Alice").

Definition example_alice : Message :=
  mkMessage (str "12/5/23, 9:04:01 PM") (str "Alice")
    (str "Hello there" ++ [10] ++ str "how are you?")
    (str "12/5/23") (str "9:04:01 PM").


(* ================================================================= *)
(** ** Character classes *)

Ltac bprop :=
  repeat match goal with
  | H : (_ || _)%bool = true |- _ => apply orb_true_iff in H; destruct H
  | H : (_ && _)%bool = true |- _ => apply andb_true_iff in H; destruct H
  | H : negb _ = true |- _ => apply negb_true_iff in H
  | H : (_ || _)%bool = false |- _ => apply orb_false_iff in H; destruct H
  | H : (_ =? _) = true |- _ => apply N.eqb_eq in H
  | H : (_ =? _) = false |- _ => apply N.eqb_neq in H
  | H : (_ <=? _) = true |- _ => apply N.leb_le in H
  | H : (_ <=? _) = false |- _ => apply N.leb_gt in H
  end.

Ltac class_false :=
  match goal with
  | |- ?b = false => destruct b eqn:?; [exfalso | reflexivity]
  end.

Lemma lit_i_cases (a : ascii) (c : N) :
  (65 <= N_of_ascii a <= 90) ->
  lit_i a c = true -> c = N_of_ascii a \/ c = N_of_ascii a + 32.
Proof.
  unfold lit_i, Canonicalize; intros Ha H.
  destruct ((97 <=? N_of_ascii a) && (N_of_ascii a <=? 122))%bool eqn:E1;
    [bprop; lia|].
  destruct ((97 <=? c) && (c <=? 122))%bool eqn:E2; bprop; lia.
Qed.

Lemma is_AP_cases (c : N) :
  is_AP c = true -> c = 65 \/ c = 97 \/ c = 80 \/ c = 112.
Proof.
  unfold is_AP; intros H; apply orb_true_iff in H.
  destruct H as [H|H]; apply lit_i_cases in H; cbn in *; lia.
Qed.

Lemma space_not_digit (c : N) : is_space c = true -> is_digit c = false.
Proof.
  unfold is_space, is_digit; intros H; class_false; bprop; lia.
Qed.

Lemma digit_not_space (c : N) : is_digit c = true -> is_space c = false.
Proof.
  intros H; destruct (is_space c) eqn:E; [|reflexivity].
  apply space_not_digit in E; congruence.
Qed.

Lemma digit_not_lit (a : ascii) (c : N) :
  (N_of_ascii a < 48 \/ 57 < N_of_ascii a) ->
  is_digit c = true -> lit a c = false.
Proof.
  unfold is_digit, lit; intros Ha H; class_false; bprop; lia.
Qed.

Lemma space_not_lit (a : ascii) (c : N) :
  is_space (N_of_ascii a) = false ->
  is_space c = true -> lit a c = false.
Proof.
  unfold lit; intros Ha H; class_false; bprop; congruence.
Qed.

Lemma space_not_AP (c : N) : is_space c = true -> is_AP c = false.
Proof.
  intros H; class_false.
  match goal with E : is_AP c = true |- _ => apply is_AP_cases in E end.
  unfold is_space in H; bprop; lia.
Qed.

Lemma digit_not_AP (c : N) : is_digit c = true -> is_AP c = false.
Proof.
  intros H; class_false.
  match goal with E : is_AP c = true |- _ => apply is_AP_cases in E end.
  unfold is_digit in H; bprop; lia.
Qed.

(* ================================================================= *)
(** ** Blank lines *)

Lemma dropWhile_snoc_keep (p : N -> bool) (s : jsstring) (c : N) :
  p c = false -> dropWhile p (s ++ [c]) <> [].
Proof.
  intros Hc; induction s as [|x s IH]; cbn.
  - rewrite Hc; discriminate.
  - destruct (p x); [exact IH | discriminate].
Qed.

Lemma blank_head (line : jsstring) :
  blank line = true ->
  match line with [] => True | c :: _ => is_space c = true end.
Proof.
  unfold blank, trim; destruct line as [|c s]; [trivial|].
  intros H; destruct (is_space c) eqn:E; [reflexivity|exfalso].
  cbn [dropWhile] in H; rewrite E in H.
  destruct (rev (dropWhile is_space (rev (c :: s)))) eqn:R; [|discriminate].
  apply (f_equal (@rev N)) in R; rewrite rev_involutive in R; cbn in R.
  exact (dropWhile_snoc_keep is_space (rev s) c E R).
Qed.

(* ================================================================= *)
(** ** The matcher on the four patterns *)

(** A pattern that begins with [^] can only match at index 0. *)
Lemma search_Bol_later (r : regex) (s : jsstring) :
  forall e, search (Cat Bol r) (S e) s = None.
Proof.
  induction s as [|c s IH]; intros e; cbn; [reflexivity | apply IH].
Qed.

Lemma rx_match_Bol (r : regex) (line : jsstring) :
  rx_match (Cat Bol r) line =
  m r (mkState 0 line []) (fun y => Some (captures y)).
Proof.
  unfold rx_match; destruct line as [|c s]; cbn [search m endIndex Nat.eqb].
  - destruct (m r _ _); reflexivity.
  - rewrite search_Bol_later.
    destruct (m r _ _); reflexivity.
Qed.

Lemma rep_needs_one {A : Type} (c : N -> bool) (lo : nat) (hi : option nat)
  (e : nat) (s : jsstring) (k : nat -> jsstring -> option A) :
  match s with [] => True | ch :: _ => c ch = false end ->
  rep c (S lo) hi e s k = None.
Proof.
  destruct s as [|ch s]; intros H; cbn.
  - destruct hi as [[|h]|]; reflexivity.
  - rewrite H; destruct hi as [[|h]|]; reflexivity.
Qed.

Lemma blank_no_match (line : jsstring) :
  blank line = true -> first_match patterns line = None.
Proof.
  intros H; apply blank_head in H.
  unfold patterns, first_match, pattern1, pattern2, pattern3, pattern4.
  rewrite !rx_match_Bol.
  cbn [m endIndex rest captures].
  rewrite !rep_needs_one
    by (destruct line; [trivial | apply space_not_digit; exact H]).
  destruct line as [|c s]; [reflexivity|].
  rewrite space_not_lit; [reflexivity | reflexivity | exact H].
Qed.

(* ================================================================= *)
(** ** The loop *)


Section Loop.

Variable pats : list regex.


Lemma step_blank (st : LoopState) (line : jsstring) :
  blank line = true -> step pats st line = st.
Proof. unfold step; intros ->; reflexivity. Qed.

Lemma emit_cons (cur : option Message) (line : jsstring)
  (lines : list jsstring) :
  emit pats cur (line :: lines) =
  match header pats line with
  | Some caps => opt_list cur ++ emit pats (Some (new_message caps)) lines
  | None =>
      if blank line then emit pats cur lines
      else emit pats (option_map (fun c => continue_message c line) cur)
             lines
  end.
Proof.
  unfold header; cbn [emit].
  destruct (blank line); [reflexivity|].
  destruct (first_match pats line); reflexivity.
Qed.

(** [emit] describes what the loop pushes. *)
Lemma flush_fold (lines : list jsstring) :
  forall st : LoopState,
    flush (fold_left (step pats) lines st) =
    msgs st ++ emit pats (currentMessage st) lines.
Proof.
  induction lines as [|line lines IH]; intros st.
  - unfold flush; cbn; destruct (currentMessage st);
      [reflexivity | now rewrite app_nil_r].
  - cbn [fold_left emit]; rewrite IH; unfold step.
    destruct (blank line); [reflexivity|].
    destruct (first_match pats line) as [caps|].
    + cbn [msgs currentMessage]; unfold flush.
      destruct (currentMessage st); cbn [opt_list];
        now rewrite <- ?app_assoc, ?app_nil_r.
    + destruct (currentMessage st) eqn:E; [reflexivity|].
      now rewrite E.
Qed.

Lemma flush_scan (lines : list jsstring) :
  flush (scan pats lines) = emit pats None lines.
Proof. unfold scan; rewrite flush_fold; reflexivity. Qed.

Lemma emit_some_cons (c : Message) (lines : list jsstring) :
  exists c' out, emit pats (Some c) lines = c' :: out.
Proof.
  revert c; induction lines as [|line lines IH]; intros c.
  - now exists c, [].
  - rewrite emit_cons; destruct (header pats line).
    + cbn; eauto.
    + destruct (blank line); cbn; apply IH.
Qed.

Lemma emit_none_nil (lines : list jsstring) :
  emit pats None lines = [] <-> Forall (fun l => header pats l = None) lines.
Proof.
  induction lines as [|line lines IH].
  - split; [constructor | reflexivity].
  - rewrite emit_cons; destruct (header pats line) as [caps|] eqn:E.
    + split; intros H.
      * destruct (emit_some_cons (new_message caps) lines) as (c & o & Hc).
        cbn in H; rewrite Hc in H; discriminate.
      * inversion H; congruence.
    + assert (R : (if blank line then emit pats None lines
                   else emit pats (option_map
                          (fun c => continue_message c line) None) lines)
                  = emit pats None lines) by (destruct (blank line); reflexivity).
      rewrite R, IH; split; intros H; [now constructor | now inversion H].
Qed.

(** Lines before the first header leave the loop where it began. *)
Lemma fold_no_header (pre : list jsstring) :
  Forall (fun l => header pats l = None) pre ->
  fold_left (step pats) pre initial = initial.
Proof.
  induction 1 as [|line pre Hl _ IH]; [reflexivity|].
  cbn [fold_left]; unfold step at 2; unfold header in Hl.
  destruct (blank line); [exact IH|].
  rewrite Hl; exact IH.
Qed.

(** A header pats line closes what came before it. *)
Lemma emit_app_header (pre : list jsstring) (h : jsstring)
  (lines : list jsstring) :
  header pats h <> None ->
  forall cur,
    emit pats cur (pre ++ h :: lines) =
    emit pats cur pre ++ emit pats None (h :: lines).
Proof.
  intros Hh; induction pre as [|line pre IH]; intros cur.
  - cbn [app]; rewrite !emit_cons.
    destruct (header pats h); [|congruence].
    cbn; destruct cur; reflexivity.
  - rewrite <- app_comm_cons.
    rewrite (emit_cons cur line (pre ++ h :: lines)), (emit_cons cur line pre).
    destruct (header pats line).
    + rewrite IH, app_assoc; reflexivity.
    + destruct (blank line); apply IH.
Qed.

(** Lines that start no message are added to the one in progress,
    the blank ones apart. *)
Lemma emit_continue (conts : list jsstring) :
  Forall (fun l => header pats l = None) conts ->
  forall (c : Message) (lines : list jsstring),
    emit pats (Some c) (conts ++ lines) =
    emit pats
      (Some (fold_left continue_message
               (filter (fun l => negb (blank l)) conts) c)) lines.
Proof.
  induction 1 as [|line conts Hl _ IH]; intros c lines; [reflexivity|].
  rewrite <- app_comm_cons, emit_cons, Hl; cbn [filter].
  destruct (blank line); cbn [negb option_map fold_left]; apply IH.
Qed.

Lemma emit_length (lines : list jsstring) :
  forall cur,
    length (emit pats cur lines) =
    (length (opt_list cur) +
     length (filter (fun l => match header pats l with
                              | Some _ => true | None => false end) lines))%nat.
Proof.
  induction lines as [|line lines IH]; intros cur.
  - destruct cur; reflexivity.
  - rewrite emit_cons; cbn [filter]; destruct (header pats line).
    + rewrite length_app, IH; cbn; lia.
    + destruct (blank line); rewrite IH; destruct cur; reflexivity.
Qed.

End Loop.

(* ================================================================= *)
(** ** The participant set and its sorting *)

Lemma str_leb_total (a : jsstring) :
  forall b, str_leb a b = false -> str_leb b a = true.
Proof.
  induction a as [|x a IH]; intros [|y b]; cbn; try congruence.
  destruct (x <? y) eqn:Exy; [discriminate|].
  destruct (y <? x) eqn:Eyx; [reflexivity|].
  apply IH.
Qed.

Lemma str_le_trans (a : jsstring) :
  forall b c, str_le a b -> str_le b c -> str_le a c.
Proof.
  unfold str_le; induction a as [|x a IH]; intros [|y b] [|z c]; cbn;
    try congruence.
  destruct (x <? y) eqn:Exy, (y <? x) eqn:Eyx,
           (y <? z) eqn:Eyz, (z <? y) eqn:Ezy,
           (x <? z) eqn:Exz, (z <? x) eqn:Ezx;
    try congruence; try (intros; reflexivity);
    try (rewrite ?N.ltb_lt, ?N.ltb_ge in *; lia).
  apply IH.
Qed.

Lemma insert_sorted_perm (x : jsstring) (l : list jsstring) :
  Permutation (x :: l) (insert_sorted x l).
Proof.
  induction l as [|y l IH]; cbn; [reflexivity|].
  destruct (str_leb x y); [reflexivity|].
  rewrite perm_swap; now constructor.
Qed.

Lemma sort_perm (l : list jsstring) : Permutation l (sort l).
Proof.
  induction l as [|x l IH]; cbn; [constructor|].
  rewrite <- insert_sorted_perm; now constructor.
Qed.

Lemma insert_sorted_sorted (x : jsstring) (l : list jsstring) :
  Sorted str_le l -> Sorted str_le (insert_sorted x l).
Proof.
  induction 1 as [|y l Hs IH Hd]; cbn; [repeat constructor|].
  destruct (str_leb x y) eqn:E.
  - repeat constructor; assumption.
  - constructor; [exact IH|].
    apply str_leb_total in E.
    destruct l as [|z l]; cbn; [now constructor|].
    destruct (str_leb x z); constructor; [exact E|].
    now inversion Hd.
Qed.

Lemma sort_sorted (l : list jsstring) : StronglySorted str_le (sort l).
Proof.
  apply Sorted_StronglySorted.
  - intros a b c; apply str_le_trans.
  - induction l as [|x l IH]; cbn; [constructor|].
    now apply insert_sorted_sorted.
Qed.

Lemma set_add_in (x s : jsstring) (set : list jsstring) :
  In s (set_add x set) <-> In s set \/ s = x.
Proof.
  unfold set_add; destruct (in_dec jsstring_eq_dec x set) as [Hin|Hin].
  - split; [tauto | intros [H| ->]; assumption].
  - rewrite in_app_iff; cbn; intuition congruence.
Qed.

Lemma set_add_nodup (x : jsstring) (set : list jsstring) :
  NoDup set -> NoDup (set_add x set).
Proof.
  unfold set_add; intros H.
  destruct (in_dec jsstring_eq_dec x set) as [Hin|Hin]; [exact H|].
  apply NoDup_rev in H; rewrite <- (rev_involutive (set ++ [x])).
  apply NoDup_rev; rewrite rev_app_distr; cbn.
  constructor; [now rewrite <- in_rev | exact H].
Qed.


Lemma step_participants (pats : list regex) (st : LoopState)
  (line : jsstring) :
  participants_ok st -> participants_ok (step pats st line).
Proof.
  intros [Hn Hi]; unfold step.
  destruct (blank line); [now split|].
  destruct (first_match pats line) as [caps|].
  - split; cbn [participantsSet]; [now apply set_add_nodup|].
    intros s; rewrite set_add_in, Hi.
    unfold flush at 2; cbn [msgs currentMessage].
    rewrite map_app, in_app_iff; cbn; intuition congruence.
  - destruct (currentMessage st) as [cur|] eqn:E; [|now split].
    split; [exact Hn|]; intros s; rewrite Hi.
    unfold flush; cbn [msgs currentMessage]; rewrite E.
    rewrite !map_app; reflexivity.
Qed.

Lemma scan_participants (pats : list regex) (lines : list jsstring) :
  participants_ok (scan pats lines).
Proof.
  unfold scan.
  assert (H : participants_ok initial)
    by (split; [constructor | intros s; reflexivity]).
  revert H; generalize initial.
  induction lines as [|line lines IH]; intros st H; [exact H|].
  cbn [fold_left]; apply IH, step_participants, H.
Qed.

(* ================================================================= *)
(** ** Messages and the lines they start at *)


Section Indices.

Variable pats : list regex.
Hypothesis blank_unmatched :
  forall line, blank line = true -> first_match pats line = None.

Lemma header_first_match (line : jsstring) :
  header pats line = first_match pats line.
Proof.
  unfold header; destruct (blank line) eqn:E; [|reflexivity].
  symmetry; now apply blank_unmatched.
Qed.

Lemma header_indices_bounds (lines : list jsstring) :
  forall base i,
    In i (header_indices pats base lines) <->
    (base <= i)%nat /\
    exists line, nth_error lines (i - base) = Some line /\
                 first_match pats line <> None.
Proof.
  induction lines as [|line lines IH]; intros base i; cbn [header_indices].
  - split; [intros [] | intros (_ & l & H & _)].
    now destruct (i - base)%nat.
  - assert (Hs : In i (header_indices pats (S base) lines) <->
                 (base < i)%nat /\
                 exists l, nth_error (line :: lines) (i - base) = Some l /\
                           first_match pats l <> None).
    { rewrite IH; split; intros (Hb & l & Hn & Hl); (split; [lia|]);
        exists l; (split; [|exact Hl]).
      - now replace (i - base)%nat with (S (i - S base)) by lia.
      - now replace (i - base)%nat with (S (i - S base)) in Hn by lia. }
    assert (H0 : forall l, nth_error (line :: lines) (base - base) = Some l
                           <-> l = line).
    { intros l; rewrite Nat.sub_diag; cbn; split; congruence. }
    unfold is_header; destruct (first_match pats line) as [caps|] eqn:E.
    + cbn [In]; rewrite Hs; split.
      * intros [<- | (Hb & l & Hn & Hl)].
        -- split; [lia|]; exists line; rewrite H0, E; split; congruence.
        -- split; [lia|]; eauto.
      * intros (Hb & l & Hn & Hl).
        destruct (Nat.eq_dec base i) as [<- | Hne]; [now left|].
        right; split; [lia|]; eauto.
    + rewrite Hs; split; intros (Hb & l & Hn & Hl); (split; [|eauto]).
      * lia.
      * destruct (Nat.eq_dec base i) as [<- | Hne]; [|lia].
        apply H0 in Hn; subst l; congruence.
Qed.

Lemma header_indices_sorted (lines : list jsstring) :
  forall base, StronglySorted lt (header_indices pats base lines).
Proof.
  induction lines as [|line lines IH]; intros base; cbn [header_indices];
    [constructor|].
  destruct (is_header pats line); [|apply IH].
  constructor; [apply IH|].
  apply Forall_forall; intros i Hi.
  apply header_indices_bounds in Hi; lia.
Qed.

Lemma emit_indexed (lines : list jsstring) :
  forall (pre : list jsstring) (cur : option Message),
  exists first out,
    emit pats cur lines = first ++ out /\
    match cur with
    | None => first = []
    | Some c => exists conts, first = [fold_left continue_message conts c]
    end /\
    Forall2 (from_header pats (pre ++ lines))
      (header_indices pats (length pre) lines) out.
Proof.
  induction lines as [|line lines IH]; intros pre cur.
  - exists (opt_list cur), []; cbn; rewrite app_nil_r.
    split; [destruct cur; reflexivity|]; split; [|constructor].
    destruct cur; [now exists [] | reflexivity].
  - assert (Hpre : pre ++ line :: lines = (pre ++ [line]) ++ lines)
      by now rewrite <- app_assoc.
    assert (Hlen : length (pre ++ [line]) = S (length pre))
      by (rewrite length_app; cbn; lia).
    rewrite emit_cons, header_first_match; cbn [header_indices].
    unfold is_header; destruct (first_match pats line) as [caps|] eqn:E.
    + destruct (IH (pre ++ [line]) (Some (new_message caps)))
        as (first & out & He & (conts & Hf) & Hall).
      exists (opt_list cur), (first ++ out); rewrite He.
      split; [reflexivity|]; split.
      * destruct cur; [now exists [] | reflexivity].
      * subst first; cbn [app]; constructor.
        -- exists line, caps, conts; split; [|now split].
           rewrite nth_error_app2, Nat.sub_diag by lia; reflexivity.
        -- now rewrite Hpre, <- Hlen.
    + destruct (blank line).
      * destruct (IH (pre ++ [line]) cur) as (first & out & He & Hf & Hall).
        exists first, out; rewrite Hpre, <- Hlen; now repeat split.
      * destruct (IH (pre ++ [line])
                    (option_map (fun c => continue_message c line) cur))
          as (first & out & He & Hf & Hall).
        exists first, out; rewrite Hpre, <- Hlen.
        split; [exact He|]; split; [|exact Hall].
        destruct cur as [c|]; [|exact Hf].
        destruct Hf as (conts & Hf); now exists (line :: conts).
Qed.

End Indices.

(* ================================================================= *)
(** ** Quantifiers that are followed by something else *)


(** A greedy quantifier whose continuation cannot begin in its class
    has one way to match: it takes the whole run. *)
Lemma rep_closed {A : Type} (c : N -> bool)
  (k : nat -> jsstring -> option A) :
  rejects c k ->
  forall s lo hi e,
    rep c lo hi e s k =
    if within lo hi (span c s)
    then k (e + span c s)%nat (skipn (span c s) s)
    else None.
Proof.
  intros Hk; induction s as [|ch s IH]; intros lo hi e.
  - cbn; rewrite Nat.add_0_r.
    destruct lo, hi as [[|h]|]; reflexivity.
  - cbn [rep span]; destruct (c ch) eqn:Ec.
    + assert (Hstop : match lo with O => k e (ch :: s) | S _ => None end
                      = None) by (destruct lo; [now apply Hk | reflexivity]).
      rewrite Hstop.
      destruct hi as [[|h]|].
      * unfold within; cbn; now rewrite andb_false_r.
      * rewrite IH; cbn [option_map pred skipn].
        replace (within lo (Some (S h)) (S (span c s)))
          with (within (pred lo) (Some h) (span c s))
          by (unfold within; destruct lo; reflexivity).
        rewrite Nat.add_succ_r.
        destruct (within (pred lo) (Some h) (span c s)); [|reflexivity].
        cbn [Nat.add]; now destruct (k (S (e + span c s)) _).
      * rewrite IH; cbn [option_map pred skipn].
        replace (within lo None (S (span c s)))
          with (within (pred lo) None (span c s))
          by (unfold within; destruct lo; reflexivity).
        rewrite Nat.add_succ_r.
        destruct (within (pred lo) None (span c s)); [|reflexivity].
        cbn [Nat.add]; now destruct (k (S (e + span c s)) _).
    + rewrite Nat.add_0_r; cbn [skipn].
      destruct lo, hi as [[|h]|]; reflexivity.
Qed.

Lemma rep_exactly_two {A : Type} (c : N -> bool) (e : nat) (s : jsstring)
  (k : nat -> jsstring -> option A) :
  rep c 2 (Some 2%nat) e s k =
  match s with
  | a :: b :: s' => if c a && c b then k (S (S e)) s' else None
  | _ => None
  end.
Proof.
  destruct s as [|a [|b s]]; cbn; [reflexivity | |].
  - destruct (c a); reflexivity.
  - destruct (c a); [|reflexivity].
    destruct (c b); cbn; [|reflexivity].
    destruct s as [|d s]; cbn; now destruct (k _ _).
Qed.


Lemma m_digits_lit {A : Type} (lo : nat) (hi : option nat) (a : ascii)
  (R : regex) (x : MatchState) (K : MatchState -> option A) :
  (N_of_ascii a < 48 \/ 57 < N_of_ascii a) ->
  m (Rep is_digit lo hi ;; Chr (lit a) ;; R) x K =
  match after_digits lo hi a x with
  | Some y => m R y K
  | None => None
  end.
Proof.
  intros Ha; cbn [m endIndex rest captures].
  rewrite rep_closed.
  - unfold after_digits.
    destruct (within lo hi _); [|reflexivity].
    destruct (skipn _ _) as [|ch s]; [reflexivity|].
    destruct (lit a ch); reflexivity.
  - intros e ch s Hd; now rewrite (digit_not_lit a ch Ha Hd).
Qed.

Lemma m_spaces {A : Type} (R : regex) (x : MatchState)
  (K : MatchState -> option A) :
  (forall y, match rest y with
             | ch :: _ => is_space ch = true
             | [] => False
             end -> m R y K = None) ->
  m (Rep is_space 0 None ;; R) x K =
  m R (mkState (endIndex x + span is_space (rest x))
               (skipn (span is_space (rest x)) (rest x))
               (captures x)) K.
Proof.
  intros HR; cbn [m endIndex rest captures].
  rewrite rep_closed; [reflexivity|].
  intros e ch s Hs; now apply HR.
Qed.

(* ================================================================= *)
(** ** Patterns 3 and 4 against pattern 2 *)

Section Subsumption.
Local Open Scope regex_scope.
Local Open Scope char_scope.

Local Abbreviation d12 := (Rep is_digit 1 (Some 2%nat)).
Local Abbreviation d2 := (Rep is_digit 2 (Some 2%nat)).
Local Abbreviation d24 := (Rep is_digit 2 (Some 4%nat)).
Local Abbreviation ws := (Rep is_space 0 None).

Context {A : Type}.
Implicit Types (x y : MatchState) (K : MatchState -> option A).

Lemma year_weaken (k1 k2 : nat -> jsstring -> option A) (r : A)
  (e : nat) (s : jsstring) :
  rejects is_digit k1 -> rejects is_digit k2 ->
  (forall e' s', k1 e' s' = Some r -> k2 e' s' = Some r) ->
  rep is_digit 2 (Some 2%nat) e s k1 = Some r ->
  rep is_digit 2 (Some 4%nat) e s k2 = Some r.
Proof.
  intros H1 H2 H12; rewrite !rep_closed by assumption.
  destruct (within 2 (Some 2%nat) (span is_digit s)) eqn:E; [|discriminate].
  assert (E2 : span is_digit s = 2%nat).
  { unfold within in E; apply andb_true_iff in E; destruct E as [Ea Eb].
    apply Nat.leb_le in Ea, Eb; lia. }
  rewrite E2; cbn [within Nat.leb andb]; apply H12.
Qed.

(** The date group with a two-digit year against the one with a year of
    two to four digits, both followed by the comma. *)
Lemma date_weaken (R1 R2 : regex) x K (r : A) :
  (forall y, m (Chr (lit ",") ;; R1) y K = Some r ->
             m (Chr (lit ",") ;; R2) y K = Some r) ->
  m (Cap (d12 ;; Chr (lit "/") ;; d12 ;; Chr (lit "/") ;; d2) ;;
     Chr (lit ",") ;; R1) x K = Some r ->
  m (Cap (d12 ;; Chr (lit "/") ;; d12 ;; Chr (lit "/") ;; d24) ;;
     Chr (lit ",") ;; R2) x K = Some r.
Proof.
  intros HR.
  change (m (Cap ?D ;; ?T) x K)
    with (m D x (fun y => m T (mkState (endIndex y) (rest y)
            (captures y ++ [firstn (endIndex y - endIndex x) (rest x)])) K)).
  rewrite !(m_digits_lit 1 (Some 2%nat) "/") by (cbn; lia).
  destruct (after_digits 1 (Some 2%nat) "/" x) as [y1|]; [|discriminate].
  rewrite !(m_digits_lit 1 (Some 2%nat) "/") by (cbn; lia).
  destruct (after_digits 1 (Some 2%nat) "/" y1) as [y2|]; [|discriminate].
  cbn [m]; apply year_weaken.
  - intros e ch s Hd; cbn [rest]; now rewrite (digit_not_lit "," ch) by
      (cbn; lia || exact Hd).
  - intros e ch s Hd; cbn [rest]; now rewrite (digit_not_lit "," ch) by
      (cbn; lia || exact Hd).
  - intros e s; apply HR.
Qed.

Lemma m_Chr_Cat (c : N -> bool) (R : regex) x K :
  m (Chr c ;; R) x K =
  match rest x with
  | ch :: s =>
      if c ch then m R (mkState (S (endIndex x)) s (captures x)) K else None
  | [] => None
  end.
Proof. cbn [m]; destruct (rest x) as [|ch s]; reflexivity. Qed.

Lemma after_digits_space (lo : nat) (hi : option nat) (a : ascii) y :
  match rest y with ch :: _ => is_space ch = true | [] => False end ->
  after_digits (S lo) hi a y = None.
Proof.
  unfold after_digits; destruct (rest y) as [|ch s]; [intros []|].
  intros H; cbn [span]; now rewrite (space_not_digit ch H).
Qed.

(** The time group with a mandatory AM/PM marker against the one where
    the marker is optional: the optional group tries the marker first. *)
Lemma time_weaken (T : regex) y K (r : A) :
  m (Chr (lit ",") ;; ws ;;
     Cap (d12 ;; Chr (lit ":") ;; d2 ;;
          ws ;; Chr is_AP ;; Chr (lit_i "M")) ;; T) y K = Some r ->
  m (Chr (lit ",") ;; ws ;;
     Cap (d12 ;; Chr (lit ":") ;; d2 ;;
          Opt (ws ;; Chr is_AP ;; Chr (lit_i "M"))) ;; T) y K = Some r.
Proof.
  rewrite !m_Chr_Cat.
  destruct (rest y) as [|ch s]; [discriminate|].
  destruct (lit "," ch); [|discriminate].
  rewrite !m_spaces.
  2, 3: intros y' Hy';
    change (m (Cap ?D ;; ?T') y' K)
      with (m D y' (fun z => m T' (mkState (endIndex z) (rest z)
              (captures z ++ [firstn (endIndex z - endIndex y') (rest y')]))
              K));
    rewrite (m_digits_lit 1 (Some 2%nat) ":") by (cbn; lia);
    now rewrite after_digits_space.
  cbn [endIndex rest captures].
  set (y1 := mkState _ _ _).
  change (m (Cap ?D ;; ?T') y1 K)
    with (m D y1 (fun z => m T' (mkState (endIndex z) (rest z)
            (captures z ++ [firstn (endIndex z - endIndex y1) (rest y1)]))
            K)).
  rewrite !(m_digits_lit 1 (Some 2%nat) ":") by (cbn; lia).
  destruct (after_digits 1 (Some 2%nat) ":" y1) as [y2|]; [|discriminate].
  set (K' := fun z => _).
  change (m (d2 ;; ?X) y2 K')
    with (rep is_digit 2 (Some 2%nat) (endIndex y2) (rest y2)
            (fun e s => m X (mkState e s (captures y2)) K')).
  rewrite !rep_exactly_two.
  destruct (rest y2) as [|a [|b s2]]; try discriminate.
  destruct (is_digit a && is_digit b)%bool; [|discriminate].
  set (y3 := mkState _ _ _).
  intros H.
  change (m (Opt ?X) y3 K')
    with (match m X y3 (fun z => if (endIndex z =? endIndex y3)%nat
                                 then None else K' z) with
          | Some z => Some z
          | None => K' y3
          end).
  enough (E : m (ws ;; Chr is_AP ;; Chr (lit_i "M")) y3
                (fun z => if (endIndex z =? endIndex y3)%nat
                          then None else K' z) = Some r)
    by now rewrite E.
  revert H; rewrite !m_spaces.
  2, 3: intros y' Hy'; rewrite m_Chr_Cat;
    destruct (rest y') as [|ch' s']; [reflexivity|];
    now rewrite (space_not_AP ch' Hy').
  rewrite !m_Chr_Cat; cbn [endIndex rest captures m].
  destruct (skipn (span is_space (rest y3)) (rest y3)) as [|p [|q s3]];
    try discriminate.
  - destruct (is_AP p); discriminate.
  - destruct (is_AP p); [|discriminate].
    destruct (lit_i "M" q); [|discriminate].
    replace (S (S (endIndex y3 + span is_space (rest y3))) =? endIndex y3)%nat
      with false by (symmetry; apply Nat.eqb_neq; lia).
    exact (fun H => H).
Qed.

End Subsumption.

(* ================================================================= *)
(** ** The result of a parse *)

Lemma header_patterns (line : jsstring) :
  header patterns line = first_match patterns line.
Proof. apply header_first_match, blank_no_match. Qed.

Lemma Forall_header_patterns (lines : list jsstring) :
  Forall (fun l => header patterns l = None) lines <->
  Forall (fun l => first_match patterns l = None) lines.
Proof.
  split; apply Forall_impl; intros l; now rewrite header_patterns.
Qed.

Lemma any_valid_length (valid : jsstring -> bool) (l : list Message) :
  (0 <? length (filter valid (map (fun mg => date_argument (date mg)) l)))%nat
  = existsb (fun mg => valid (date_argument (date mg))) l.
Proof.
  induction l as [|mg l IH]; [reflexivity|]; cbn.
  destruct (valid (date_argument (date mg))); [reflexivity | exact IH].
Qed.

Section Result.

Variable DateIsValid : jsstring -> bool.
Variable pats : list regex.

Lemma parseWith_emit (text : jsstring) :
  parseWith DateIsValid pats text =
  match emit pats None (split 10 text) with
  | [] => None
  | first :: others =>
      let any_valid :=
        existsb (fun mg => DateIsValid (date_argument (date mg)))
          (first :: others) in
      Some (mkParsedData
              (str "Zero to One")
              (first :: others)
              (sort (participantsSet (scan pats (split 10 text))))
              (length (first :: others))
              (mkDateRange
                 (if any_valid then date first else str "N/A")
                 (if any_valid then date (last (first :: others) first)
                  else str "N/A")))
  end.
Proof.
  unfold parseWith; rewrite flush_scan.
  destruct (emit pats None (split 10 text)) as [|first others];
    [reflexivity|].
  cbv zeta; now rewrite any_valid_length.
Qed.

Lemma parseWith_messages (text : jsstring) (r : ParsedData) :
  parseWith DateIsValid pats text = Some r ->
  messages r = emit pats None (split 10 text) /\
  participants r = sort (participantsSet (scan pats (split 10 text))) /\
  messageCount r = length (messages r).
Proof.
  rewrite parseWith_emit.
  destruct (emit pats None (split 10 text)) as [|first others];
    [discriminate|].
  intros [= <-]; repeat split.
Qed.

Lemma parseWith_some (text : jsstring) :
  emit pats None (split 10 text) <> [] ->
  exists r, parseWith DateIsValid pats text = Some r.
Proof.
  rewrite parseWith_emit.
  destruct (emit pats None (split 10 text)) as [|first others];
    [congruence | eauto].
Qed.

End Result.

(* ================================================================= *)
(** ** Continuation lines *)

Lemma join_continued (a b : jsstring) (ls : list jsstring) :
  join [10] ((a ++ [10] ++ b) :: ls) = a ++ [10] ++ join [10] (b :: ls).
Proof.
  destruct ls as [|c ls]; [reflexivity|].
  cbn [join]; now rewrite <- !app_assoc.
Qed.

Lemma continue_fold (conts : list jsstring) :
  forall c : Message,
    fold_left continue_message conts c =
    mkMessage (timestamp c) (sender c) (join [10] (message c :: conts))
              (date c) (time c).
Proof.
  induction conts as [|line conts IH]; intros c.
  - now destruct c.
  - cbn [fold_left]; rewrite IH; unfold continue_message.
    cbn [timestamp sender message date time].
    rewrite join_continued; reflexivity.
Qed.

Lemma filter_nonblank_all (conts : list jsstring) :
  Forall (fun l => blank l = false /\ first_match patterns l = None) conts ->
  filter (fun l => negb (blank l)) conts = conts.
Proof.
  induction 1 as [|l conts [Hb _] _ IH]; [reflexivity|].
  cbn; now rewrite Hb, IH.
Qed.

(** The messages of an input cut at a header line [h], the lines
    [conts] that follow it and start no message, and a rest that is
    empty or begins with a header line. *)
Lemma segment_messages (pre : list jsstring) (h : jsstring)
  (caps : list jsstring) (conts post : list jsstring) :
  first_match patterns h = Some caps ->
  Forall (fun l => first_match patterns l = None) conts ->
  match post with
  | [] => True
  | h' :: _ => first_match patterns h' <> None
  end ->
  emit patterns None (pre ++ h :: conts ++ post) =
  emit patterns None pre ++
  fold_left continue_message (filter (fun l => negb (blank l)) conts)
    (new_message caps)
  :: emit patterns None post.
Proof.
  intros Hh Hc Hp.
  rewrite emit_app_header by (rewrite header_patterns; congruence).
  f_equal.
  rewrite emit_cons, header_patterns, Hh; cbn [opt_list app].
  rewrite emit_continue
    by (eapply Forall_impl; [|exact Hc]; intros l Hl;
        now rewrite header_patterns).
  destruct post as [|h' post]; [reflexivity|].
  rewrite !emit_cons, header_patterns.
  destruct (first_match patterns h'); [reflexivity | congruence].
Qed.

Lemma count_headers (lines : list jsstring) :
  length (emit patterns None lines) =
  length (filter (is_header patterns) lines).
Proof.
  rewrite emit_length; cbn [opt_list length Nat.add].
  f_equal; apply filter_ext; intros l.
  unfold is_header; now rewrite header_patterns.
Qed.

(* ================================================================= *)
(** ** The four groups of a match *)

Lemma rep_success {A : Type} (c : N -> bool) (s : jsstring) :
  forall lo hi e (k : nat -> jsstring -> option A) z,
    rep c lo hi e s k = Some z -> exists e' s', k e' s' = Some z.
Proof.
  induction s as [|ch s IH]; intros lo hi e k z; cbn [rep].
  - destruct lo, hi as [[|h]|]; try discriminate; eauto.
  - assert (Hstop : match lo with O => k e (ch :: s) | S _ => None end
                    = Some z -> exists e' s', k e' s' = Some z)
      by (destruct lo; [eauto | discriminate]).
    destruct hi as [[|h]|]; [exact Hstop | |];
      (destruct (c ch); [|exact Hstop]);
      (destruct (rep c (pred lo) _ (S e) s k) eqn:E; [|exact Hstop]);
      intros [= <-]; eapply IH; exact E.
Qed.

(** A success of the matcher went through its continuation, and by
    then every group of the pattern had closed once. *)
Lemma m_success {A : Type} (r : regex) :
  caps_fixed r = true ->
  forall x (K : MatchState -> option A) z,
    m r x K = Some z ->
    exists y, K y = Some z /\
              length (captures y) = (length (captures x) + ncaps r)%nat.
Proof.
  induction r as [| |c|c lo hi|r IH|r1 IH1 r2 IH2|r IH];
    intros Hf x K z; cbn [m ncaps].
  - destruct (endIndex x =? 0)%nat; [|discriminate].
    intros H; exists x; now rewrite Nat.add_0_r.
  - destruct (rest x); [|discriminate].
    intros H; exists x; now rewrite Nat.add_0_r.
  - destruct (rest x) as [|ch s]; [discriminate|].
    destruct (c ch); [|discriminate].
    intros H; eexists; split; [exact H|]; cbn; now rewrite Nat.add_0_r.
  - intros H; apply rep_success in H; destruct H as (e' & s' & H).
    eexists; split; [exact H|]; cbn; now rewrite Nat.add_0_r.
  - cbn [caps_fixed] in Hf; apply andb_true_iff in Hf; destruct Hf as [H0 Hf].
    apply Nat.eqb_eq in H0; rewrite H0.
    destruct (m r x _) as [z'|] eqn:E.
    + intros [= <-]; apply (IH Hf) in E; destruct E as (y & Hy & Hl).
      exists y; split; [|now rewrite Hl, H0].
      destruct (endIndex y =? endIndex x)%nat; [discriminate | exact Hy].
    + intros H; exists x; now rewrite Nat.add_0_r.
  - cbn [caps_fixed] in Hf; apply andb_true_iff in Hf; destruct Hf as [F1 F2].
    intros H; apply (IH1 F1) in H; destruct H as (y1 & H & L1).
    apply (IH2 F2) in H; destruct H as (y2 & H & L2).
    exists y2; split; [exact H | lia].
  - cbn [caps_fixed] in Hf.
    intros H; apply (IH Hf) in H; destruct H as (y & H & L).
    eexists; split; [exact H|]; cbn [captures].
    rewrite length_app; cbn; lia.
Qed.

Lemma search_captures (r : regex) (s : jsstring) :
  caps_fixed r = true ->
  forall e caps, search r e s = Some caps -> length caps = ncaps r.
Proof.
  intros Hf; induction s as [|ch s IH]; intros e caps; cbn [search];
    destruct (m r _ _) as [z|] eqn:E; try discriminate;
    try (intros [= <-]; apply (m_success r Hf) in E;
         destruct E as (y & [= <-] & L); exact L).
  apply IH.
Qed.

(** Whenever a pattern of the table matches, the four names that the
    loop takes out of the match are defined. *)
Lemma first_match_four (line : jsstring) (caps : list jsstring) :
  first_match patterns line = Some caps -> length caps = 4%nat.
Proof.
  unfold patterns; cbn [first_match].
  destruct (rx_match pattern1 line) eqn:E1;
    [intros [= <-]; exact (search_captures pattern1 line eq_refl 0%nat _ E1)|].
  destruct (rx_match pattern2 line) eqn:E2;
    [intros [= <-]; exact (search_captures pattern2 line eq_refl 0%nat _ E2)|].
  destruct (rx_match pattern3 line) eqn:E3;
    [intros [= <-]; exact (search_captures pattern3 line eq_refl 0%nat _ E3)|].
  destruct (rx_match pattern4 line) eqn:E4; [|discriminate].
  intros [= <-]; exact (search_captures pattern4 line eq_refl 0%nat _ E4).
Qed.

(* ================================================================= *)
(** ** The matcher on some lines *)

Example bracketed_header :
  rx_match pattern1 example_header = Some example_captures.
Proof. vm_compute; reflexivity. Qed.

Example dashed_header_24h :
  first_match patterns (str "12/05/2023, 21:04 - Bob Smith:  ok then ") =
  Some [str "12/05/2023"; str "21:04"; str "Bob Smith"; str "ok then "].
Proof. vm_compute; reflexivity. Qed.

Example dashed_header_lower_case_marker :
  first_match patterns (str "1/2/23, 9:04 pm - Ann: a:b") =
  Some [str "1/2/23"; str "9:04 pm"; str "Ann"; str "a:b"].
Proof. vm_compute; reflexivity. Qed.

(** [ .* ] stops at a carriage return and [$] wants the end of the line:
    a header line that keeps its carriage return is not a header. *)
Example header_with_carriage_return :
  first_match patterns (str "1/2/23, 9:04 pm - Ann: hello" ++ [13]) = None.
Proof. vm_compute; reflexivity. Qed.

Example sender_of_white_space :
  option_map new_message
    (first_match patterns (str "1/2/23, 9:04 -  : x")) =
  Some (mkMessage (str "1/2/23, 9:04") [] (str "x")
                  (str "1/2/23") (str "9:04")).
Proof. vm_compute; reflexivity. Qed.

Example five_digit_year :
  first_match patterns (str "1/2/20231, 9:04 - Ann: x") = None.
Proof. vm_compute; reflexivity. Qed.

Example blank_lines :
  blank [] = true /\ blank (str "  " ++ [9; 13; 160]) = true /\
  blank (str " x ") = false.
Proof. vm_compute; repeat split. Qed.

(* ================================================================= *)
(** ** One pattern in place of three *)

Lemma pattern3_in_pattern2 (line : jsstring) (caps : list jsstring) :
  rx_match pattern3 line = Some caps -> rx_match pattern2 line = Some caps.
Proof.
  unfold pattern3, pattern2; rewrite !rx_match_Bol.
  apply date_weaken; intros y H; exact H.
Qed.

Lemma pattern4_in_pattern2 (line : jsstring) (caps : list jsstring) :
  rx_match pattern4 line = Some caps -> rx_match pattern2 line = Some caps.
Proof.
  unfold pattern4, pattern2; rewrite !rx_match_Bol.
  apply date_weaken; intros y; apply time_weaken.
Qed.

Lemma first_match_two (line : jsstring) :
  first_match [pattern1; pattern2] line = first_match patterns line.
Proof.
  unfold patterns; cbn [first_match].
  destruct (rx_match pattern1 line); [reflexivity|].
  destruct (rx_match pattern2 line) eqn:E2; [reflexivity|].
  destruct (rx_match pattern3 line) eqn:E3.
  - apply pattern3_in_pattern2 in E3; congruence.
  - destruct (rx_match pattern4 line) eqn:E4; [|reflexivity].
    apply pattern4_in_pattern2 in E4; congruence.
Qed.

Lemma fold_step_ext (pats1 pats2 : list regex) :
  (forall line, first_match pats1 line = first_match pats2 line) ->
  forall lines st,
    fold_left (step pats1) lines st = fold_left (step pats2) lines st.
Proof.
  intros H; induction lines as [|line lines IH]; intros st; [reflexivity|].
  cbn [fold_left]; rewrite IH; f_equal.
  unfold step; now rewrite H.
Qed.

(* ================================================================= *)
(** ** Trimming, splitting and joining *)

Lemma dropWhile_fixed (p : N -> bool) (s : jsstring) :
  match s with [] => True | c :: _ => p c = false end ->
  dropWhile p s = s.
Proof. destruct s as [|c s]; [reflexivity|]; cbn; now intros ->. Qed.

Lemma dropWhile_head (p : N -> bool) (s : jsstring) :
  match dropWhile p s with [] => True | c :: _ => p c = false end.
Proof.
  induction s as [|c s IH]; [exact I|]; cbn.
  destruct (p c) eqn:E; [exact IH | exact E].
Qed.

Lemma dropWhile_suffix (p : N -> bool) (s : jsstring) :
  exists pre, s = pre ++ dropWhile p s.
Proof.
  induction s as [|c s [pre IH]]; [now exists []|]; cbn.
  destruct (p c); [|now exists []].
  exists (c :: pre); cbn; now rewrite <- IH.
Qed.

Lemma trim_parts (s : jsstring) :
  exists pre post, s = pre ++ trim s ++ post.
Proof.
  unfold trim.
  destruct (dropWhile_suffix is_space s) as [pre Hpre].
  destruct (dropWhile_suffix is_space (rev (dropWhile is_space s)))
    as [post Hpost].
  exists pre, (rev post).
  rewrite <- rev_app_distr, <- Hpost, rev_involutive; exact Hpre.
Qed.

Lemma trim_forallb (p : N -> bool) (s : jsstring) :
  forallb p s = true -> forallb p (trim s) = true.
Proof.
  destruct (trim_parts s) as (pre & post & H); intros Hs.
  rewrite H, !forallb_app in Hs.
  apply andb_true_iff in Hs; destruct Hs as [_ Hs].
  now apply andb_true_iff in Hs.
Qed.

Lemma trim_In (c : N) (s : jsstring) : In c (trim s) -> In c s.
Proof.
  destruct (trim_parts s) as (pre & post & H); intros Hc.
  rewrite H, !in_app_iff; auto.
Qed.

(** What is trimmed begins and ends with something else than space. *)
Lemma trim_ends (s : jsstring) :
  match trim s with [] => True | c :: _ => is_space c = false end /\
  match rev (trim s) with [] => True | c :: _ => is_space c = false end.
Proof.
  unfold trim; rewrite rev_involutive.
  split; [|apply dropWhile_head].
  pose proof (dropWhile_head is_space s) as Hh.
  destruct (dropWhile_suffix is_space (rev (dropWhile is_space s)))
    as [post Hpost].
  apply (f_equal (@rev N)) in Hpost.
  rewrite rev_involutive, rev_app_distr in Hpost.
  destruct (rev (dropWhile is_space (rev (dropWhile is_space s))))
    as [|c t]; [exact I|].
  rewrite Hpost in Hh; exact Hh.
Qed.

Lemma trim_idempotent (s : jsstring) : trim (trim s) = trim s.
Proof.
  destruct (trim_ends s) as [H1 H2].
  unfold trim at 1.
  rewrite (dropWhile_fixed is_space (trim s) H1).
  rewrite (dropWhile_fixed is_space (rev (trim s)) H2).
  apply rev_involutive.
Qed.

Lemma split_pieces (sep : N) (s : jsstring) :
  split sep s <> [] /\ Forall (fun piece => ~ In sep piece) (split sep s).
Proof.
  induction s as [|c s [Hne IH]]; cbn.
  - split; [discriminate | repeat constructor; auto].
  - destruct (c =? sep) eqn:E.
    + split; [discriminate | constructor; auto].
    + destruct (split sep s) as [|piece pieces]; [congruence|].
      split; [discriminate|]; inversion IH; subst.
      constructor; [|assumption].
      apply N.eqb_neq in E; intros [H|H]; [congruence | auto].
Qed.

Lemma split_free (sep : N) (s : jsstring) :
  ~ In sep s -> split sep s = [s].
Proof.
  induction s as [|c s IH]; [reflexivity|]; cbn; intros H.
  destruct (c =? sep) eqn:E; [apply N.eqb_eq in E; tauto|].
  rewrite IH by tauto; reflexivity.
Qed.

Lemma split_at_separator (sep : N) (a b : jsstring) :
  ~ In sep a -> split sep (a ++ sep :: b) = a :: split sep b.
Proof.
  induction a as [|c a IH]; cbn; intros H.
  - now rewrite N.eqb_refl.
  - destruct (c =? sep) eqn:E; [apply N.eqb_eq in E; tauto|].
    rewrite IH by tauto; reflexivity.
Qed.

(** Lines put together with newlines split back into the lines. *)
Lemma split_join (sep : N) (pieces : list jsstring) :
  pieces <> [] ->
  Forall (fun piece => ~ In sep piece) pieces ->
  split sep (join [sep] pieces) = pieces.
Proof.
  induction pieces as [|p ps IH]; [congruence|]; intros _ H.
  inversion H as [|? ? Hp Hps]; subst.
  destruct ps as [|q ps]; [now apply split_free|].
  cbn [join app]; rewrite split_at_separator by exact Hp.
  f_equal; apply IH; [discriminate | exact Hps].
Qed.

Lemma split_append (sep : N) (a b : jsstring) :
  split sep (a ++ sep :: b) = split sep a ++ split sep b.
Proof.
  induction a as [|c a IH]; cbn.
  - now rewrite N.eqb_refl.
  - destruct (c =? sep); [now rewrite IH|].
    rewrite IH; destruct (split_pieces sep a) as [Hne _].
    destruct (split sep a); [congruence | reflexivity].
Qed.

(* ================================================================= *)
(** ** Where the messages come from *)

Lemma emit_origin (all : list jsstring) :
  forall (lines : list jsstring) (cur : option Message),
    incl lines all ->
    (forall c, cur = Some c -> message_origin all c) ->
    Forall (message_origin all) (emit patterns cur lines).
Proof.
  induction lines as [|line lines IH]; intros cur Hin Hcur.
  - destruct cur as [c|]; cbn; [|constructor].
    constructor; [now apply Hcur | constructor].
  - assert (Hl : In line all) by (apply Hin; now left).
    assert (Hin' : incl lines all)
      by (intros l Hl'; apply Hin; now right).
    rewrite emit_cons, header_patterns.
    destruct (first_match patterns line) as [caps|] eqn:E.
    + apply Forall_app; split.
      * destruct cur as [c|]; cbn; [|constructor].
        constructor; [now apply Hcur | constructor].
      * apply IH; [exact Hin'|]; intros c [= <-].
        exists line, caps, []; repeat split; auto.
    + destruct (blank line) eqn:Eb; apply IH; try exact Hin'; try exact Hcur.
      intros c' Hc'; destruct cur as [c|]; [|discriminate].
      injection Hc' as <-.
      destruct (Hcur c eq_refl) as (h & caps & conts & Hh & Hm & Hc & ->).
      exists h, caps, (conts ++ [line]); repeat split; auto.
      * apply Forall_app; split; [exact Hc | repeat constructor; auto].
      * now rewrite fold_left_app.
Qed.

Lemma parsed_message_origin (DateIsValid : jsstring -> bool)
  (text : jsstring) (r : ParsedData) (mg : Message) :
  parseWhatsAppChat DateIsValid text = Some r ->
  In mg (messages r) ->
  message_origin (split 10 text) mg.
Proof.
  intros Hr Hin; apply parseWith_messages in Hr; destruct Hr as (Hm & _).
  rewrite Hm in Hin.
  pose proof (emit_origin (split 10 text) (split 10 text) None
                (incl_refl _)) as H.
  rewrite Forall_forall in H; apply H; [discriminate | exact Hin].
Qed.

(* ================================================================= *)
(** ** The properties of the specification *)

(** The scenario on a host whose [Date] rejects the turned-around
    token: the messages are the same and the range is the sentinel. *)
Lemma example_on_rejecting_host (DateIsValid : jsstring -> bool) :
  DateIsValid (str "23-5-12") = false ->
  parseWhatsAppChat DateIsValid example_text = Some example_result.
Proof.
  intros H; unfold parseWhatsAppChat; rewrite parseWith_emit.
  replace (emit patterns None (split 10 example_text))
    with (messages spec_example_result) by (vm_compute; reflexivity).
  replace (sort (participantsSet (scan patterns (split 10 example_text))))
    with (participants spec_example_result) by (vm_compute; reflexivity).
  cbv beta iota zeta delta [messages spec_example_result existsb date].
  change (date_argument (str "12/5/23")) with (str "23-5-12").
  rewrite H; reflexivity.
Qed.

(** And on a host that accepts it: what the specification expects. *)
Lemma example_on_accepting_host (DateIsValid : jsstring -> bool) :
  DateIsValid (str "23-5-12") = true ->
  parseWhatsAppChat DateIsValid example_text = Some spec_example_result.
Proof.
  intros H; unfold parseWhatsAppChat; rewrite parseWith_emit.
  replace (emit patterns None (split 10 example_text))
    with (messages spec_example_result) by (vm_compute; reflexivity).
  replace (sort (participantsSet (scan patterns (split 10 example_text))))
    with (participants spec_example_result) by (vm_compute; reflexivity).
  cbv beta iota zeta delta [messages spec_example_result existsb date].
  change (date_argument (str "12/5/23")) with (str "23-5-12").
  rewrite H; reflexivity.
Qed.

Section Claims.

Variable DateIsValid : jsstring -> bool.

Local Abbreviation parse := (parseWhatsAppChat DateIsValid).

(** C1. The parser returns nothing exactly when no line of the input
    matches a header pattern, which is the case of the empty input;
    in every other case it returns a value. *)
Theorem parse_absent_iff_no_header (text : jsstring) :
  (parse text = None <->
   Forall (fun line => first_match patterns line = None) (split 10 text)) /\
  parse [] = None /\
  (parse text <> None ->
   exists r, parse text = Some r /\ messages r <> [] /\
             messageCount r = length (messages r)).
Proof.
  assert (H : forall t,
             parse t = None <->
             Forall (fun line => first_match patterns line = None)
               (split 10 t)).
  { intros t; unfold parseWhatsAppChat; rewrite parseWith_emit.
    rewrite <- Forall_header_patterns, <- emit_none_nil.
    destruct (emit patterns None (split 10 t)); split; congruence. }
  split; [apply H|]; split; [apply H; repeat constructor|].
  intros Hn; destruct (parse text) as [r|] eqn:E; [|congruence].
  exists r; split; [reflexivity|].
  unfold parseWhatsAppChat in E; rewrite parseWith_emit in E.
  destruct (emit patterns None (split 10 text)); [discriminate|].
  injection E as <-; split; [discriminate | reflexivity].
Qed.

(** What the code does about the range, whatever the host: when no
    message has a date that the host accepts (the token turned around
    into year-month-day), both ends are the sentinel; when at least one
    has, the range is the raw date token of the first message and that
    of the last one. *)
Lemma date_range_by_host (text : jsstring) (r : ParsedData) :
  parse text = Some r ->
  let any_valid :=
    existsb (fun mg => DateIsValid (date_argument (date mg))) (messages r) in
  (any_valid = false ->
   start (dateRange r) = str "N/A" /\ end_ (dateRange r) = str "N/A") /\
  (any_valid = true ->
   exists first,
     hd_error (messages r) = Some first /\
     start (dateRange r) = date first /\
     end_ (dateRange r) = date (last (messages r) first)).
Proof.
  unfold parseWhatsAppChat; rewrite parseWith_emit.
  destruct (emit patterns None (split 10 text)) as [|first others];
    [discriminate|].
  intros [= <-]; cbv beta iota zeta delta [messages dateRange start end_].
  split; intros H; cbn [existsb] in H; rewrite H; [now split|].
  exists first; now repeat split.
Qed.

(** C3. A header line followed by lines that are not blank and match
    no pattern, up to the next header line or the end of the input,
    gives a message whose body is the trimmed text after the sender,
    joined by newlines with those lines in order; it comes after the
    messages of the header lines before it, and when the input ends
    there it is the last message. *)
Theorem continuation_lines_joined (text : jsstring)
  (pre : list jsstring) (h : jsstring) (caps : list jsstring)
  (conts post : list jsstring) :
  split 10 text = pre ++ h :: conts ++ post ->
  first_match patterns h = Some caps ->
  Forall (fun l => blank l = false /\ first_match patterns l = None) conts ->
  match post with
  | [] => True
  | h' :: _ => first_match patterns h' <> None
  end ->
  exists r before mg after,
    parse text = Some r /\
    messages r = before ++ mg :: after /\
    length before = length (filter (is_header patterns) pre) /\
    length after = length (filter (is_header patterns) post) /\
    mg = mkMessage (nth 0 caps [] ++ str ", " ++ nth 1 caps [])
                   (trim (nth 2 caps []))
                   (join [10] (trim (nth 3 caps []) :: conts))
                   (nth 0 caps []) (nth 1 caps []) /\
    (post = [] -> messages r = before ++ [mg]).
Proof.
  intros Hs Hh Hc Hp.
  assert (He : emit patterns None (split 10 text) =
               emit patterns None pre ++
               fold_left continue_message conts (new_message caps)
               :: emit patterns None post).
  { rewrite Hs, (segment_messages pre h caps conts post Hh); [| |exact Hp].
    - now rewrite (filter_nonblank_all conts Hc).
    - eapply Forall_impl; [|exact Hc]; now intros l [_ Hl]. }
  destruct (parseWith_some DateIsValid patterns text) as [r Hr].
  { rewrite He; now destruct (emit patterns None pre). }
  destruct (parseWith_messages _ _ _ _ Hr) as (Hm & _ & _).
  exists r, (emit patterns None pre),
    (fold_left continue_message conts (new_message caps)),
    (emit patterns None post).
  split; [exact Hr|]; split; [now rewrite Hm|].
  rewrite !count_headers; repeat split.
  - now rewrite continue_fold.
  - intros ->; now rewrite Hm, He.
Qed.

(** C4. The participants are the senders of the messages, each once,
    in the order of the code units: the list is sorted, has no
    duplicate, and holds a string exactly when a message has it as its
    sender; and each of them is the sender captured on a header line of
    the input with the white space trimmed off, so that it neither
    begins nor ends with white space. *)
Theorem participants_sorted_distinct (text : jsstring) (r : ParsedData) :
  parse text = Some r ->
  StronglySorted str_le (participants r) /\
  NoDup (participants r) /\
  (forall s, In s (participants r) <->
             exists mg, In mg (messages r) /\ sender mg = s) /\
  (forall s, In s (participants r) ->
     (exists line caps,
        In line (split 10 text) /\
        first_match patterns line = Some caps /\
        s = trim (nth 2 caps [])) /\
     match s with [] => True | c :: _ => is_space c = false end /\
     match rev s with [] => True | c :: _ => is_space c = false end).
Proof.
  intros Hr.
  assert (Hmem : forall s, In s (participants r) <->
                           exists mg, In mg (messages r) /\ sender mg = s).
  { pose proof Hr as Hr'.
    apply parseWith_messages in Hr'; destruct Hr' as (Hm & Hp & _).
    destruct (scan_participants patterns (split 10 text)) as [Hn Hi].
    intros s; rewrite Hp, Hm, <- flush_scan.
    rewrite <- (Permutation_in' (eq_refl s) (sort_perm _)), Hi, in_map_iff.
    split; intros (mg & H1 & H2); exists mg; now split. }
  split; [|split; [|split; [exact Hmem|]]].
  - apply parseWith_messages in Hr; destruct Hr as (_ & -> & _).
    apply sort_sorted.
  - apply parseWith_messages in Hr; destruct Hr as (_ & -> & _).
    destruct (scan_participants patterns (split 10 text)) as [Hn _].
    eapply Permutation_NoDup; [apply sort_perm | exact Hn].
  - intros s Hs; apply Hmem in Hs; destruct Hs as (mg & Hmg & <-).
    destruct (parsed_message_origin _ _ _ _ Hr Hmg)
      as (line & caps & conts & Hl & Hc & _ & ->).
    rewrite continue_fold; cbn [sender new_message].
    split; [now exists line, caps | apply trim_ends].
Qed.

(** C5. The messages follow the header lines of the input in order:
    the line numbers of the header lines, in increasing order, are
    matched one to one by the messages in their order, each message
    built from the match of its line; and the count is the length of
    the sequence. *)
Theorem messages_in_source_order (text : jsstring) :
  let lines := split 10 text in
  let idx := header_indices patterns 0 lines in
  StronglySorted lt idx /\
  (forall i, In i idx <->
             exists line, nth_error lines i = Some line /\
                          first_match patterns line <> None) /\
  match parse text with
  | None => idx = []
  | Some r =>
      Forall2 (from_header patterns lines) idx (messages r) /\
      messageCount r = length (messages r)
  end.
Proof.
  intros lines idx; split; [apply header_indices_sorted|].
  split.
  - intros i; unfold idx.
    rewrite header_indices_bounds, Nat.sub_0_r.
    split; [now intros [_ H] | intros H; split; [lia | exact H]].
  - destruct (emit_indexed patterns blank_no_match lines [] None)
      as (first & out & He & -> & Hall).
    cbn [app length] in He, Hall; fold idx in Hall.
    unfold parseWhatsAppChat; rewrite parseWith_emit; fold lines.
    rewrite He; destruct out as [|mg out]; [now inversion Hall|].
    now split.
Qed.

(** C7. A line of white space alone leaves the loop as it was: it
    matches no pattern, starts no message, is not added to the message
    in progress and does not close it.  So the body of a message is its
    first text joined with the lines up to the next header that are not
    blank, the blank ones dropped and the later ones kept. *)
Theorem blank_lines_skipped :
  (forall (st : LoopState) (line : jsstring),
     blank line = true ->
     first_match patterns line = None /\ step patterns st line = st) /\
  (forall (text : jsstring) (pre : list jsstring) (h : jsstring)
          (caps : list jsstring) (conts post : list jsstring),
     split 10 text = pre ++ h :: conts ++ post ->
     first_match patterns h = Some caps ->
     Forall (fun l => first_match patterns l = None) conts ->
     match post with
     | [] => True
     | h' :: _ => first_match patterns h' <> None
     end ->
     exists r before mg after,
       parse text = Some r /\
       messages r = before ++ mg :: after /\
       length before = length (filter (is_header patterns) pre) /\
       length after = length (filter (is_header patterns) post) /\
       sender mg = trim (nth 2 caps []) /\
       message mg =
       join [10] (trim (nth 3 caps [])
                  :: filter (fun l => negb (blank l)) conts)).
Proof.
  split.
  - intros st line Hb; split; [now apply blank_no_match|].
    now apply step_blank.
  - intros text pre h caps conts post Hs Hh Hc Hp.
    pose proof (segment_messages pre h caps conts post Hh Hc Hp) as He.
    rewrite <- Hs in He.
    destruct (parseWith_some DateIsValid patterns text) as [r Hr].
    { rewrite He; now destruct (emit patterns None pre). }
    destruct (parseWith_messages _ _ _ _ Hr) as (Hm & _ & _).
    exists r; eexists; eexists; eexists.
    split; [exact Hr|]; split; [rewrite Hm; exact He|].
    rewrite !count_headers, continue_fold; repeat split.
Qed.

(** C8. The lines before the first header line have no effect: an
    input whose lines are lines that match no pattern followed by the
    lines of another input parses as that other input. *)
Theorem leading_lines_discarded (text text' : jsstring)
  (pre : list jsstring) :
  split 10 text = pre ++ split 10 text' ->
  Forall (fun l => first_match patterns l = None) pre ->
  parse text = parse text'.
Proof.
  intros Hs Hpre; unfold parseWhatsAppChat, parseWith.
  replace (scan patterns (split 10 text))
    with (scan patterns (split 10 text')); [reflexivity|].
  unfold scan; rewrite Hs, fold_left_app, (fold_no_header patterns pre);
    [reflexivity|].
  now apply Forall_header_patterns.
Qed.

(** C9. A line that pattern 3 or pattern 4 matches is matched by
    pattern 2 with the same captures, so that the parser with the first
    two patterns alone gives the results of the parser with the four. *)
Theorem patterns_three_four_redundant :
  (forall line caps,
     rx_match pattern3 line = Some caps ->
     rx_match pattern2 line = Some caps) /\
  (forall line caps,
     rx_match pattern4 line = Some caps ->
     rx_match pattern2 line = Some caps) /\
  (forall text,
     parseWith DateIsValid [pattern1; pattern2] text = parse text).
Proof.
  split; [exact pattern3_in_pattern2|].
  split; [exact pattern4_in_pattern2|].
  intros text; unfold parseWhatsAppChat, parseWith, scan.
  now rewrite (fold_step_ext _ _ first_match_two).
Qed.

(** C10. Every result carries the group name ["Zero to One"], whatever
    the input. *)
Theorem group_name_constant (text : jsstring) (r : ParsedData) :
  parse text = Some r -> groupName r = str "Zero to One".
Proof.
  unfold parseWhatsAppChat; rewrite parseWith_emit.
  destruct (emit patterns None (split 10 text)); [discriminate|].
  now intros [= <-].
Qed.

End Claims.

(** C2. On V8 the range does not follow the calendar.  The token
    12/5/23 is a valid date by day, month and year, yet the host
    refuses the string 23-5-12 built from it and both ends of the range
    are the sentinel; the token 31/2/2023 is no date of the calendar,
    yet the host takes 2023-2-31 and both ends are the raw token. *)
Theorem date_range_against_calendar :
  option_map
    (fun r => (existsb (fun mg => calendar_day_month_year (date mg))
                 (messages r),
               dateRange r))
    (parseWhatsAppChat v8_date_valid (str "12/5/23, 9:04 - Ann: hi"))
  = Some (true, mkDateRange (str "N/A") (str "N/A")) /\
  option_map
    (fun r => (existsb (fun mg => calendar_day_month_year (date mg))
                 (messages r),
               dateRange r))
    (parseWhatsAppChat v8_date_valid (str "31/2/2023, 9:04 - Ann: hi"))
  = Some (false, mkDateRange (str "31/2/2023") (str "31/2/2023")).
Proof. split; vm_compute; reflexivity. Qed.

(** C6. On V8 the scenario of the specification parses into the two
    messages of Alice and Bob, the participants Alice and Bob and the
    count 2, as the specification expects, but the date range is the
    sentinel at both ends and not 12/5/23: the host refuses 23-5-12. *)
Theorem example_scenario_on_v8 :
  parseWhatsAppChat v8_date_valid example_text = Some example_result /\
  messages example_result = messages spec_example_result /\
  participants example_result = participants spec_example_result /\
  messageCount example_result = messageCount spec_example_result /\
  dateRange example_result = mkDateRange (str "N/A") (str "N/A") /\
  dateRange spec_example_result =
  mkDateRange (str "12/5/23") (str "12/5/23") /\
  parseWhatsAppChat v8_date_valid example_text <> Some spec_example_result.
Proof.
  assert (H : parseWhatsAppChat v8_date_valid example_text
              = Some example_result)
    by (apply example_on_rejecting_host; vm_compute; reflexivity).
  split; [exact H|]; do 5 (split; [reflexivity|]).
  rewrite H; intros E.
  apply (f_equal (option_map (fun r => start (dateRange r)))) in E.
  vm_compute in E; discriminate.
Qed.

(* ================================================================= *)
(** ** The theorems at work on the scenario *)

Lemma continuation_lines_joined_witness :
  exists r before mg after,
    parseWhatsAppChat v8_date_valid example_text = Some r /\
    messages r = before ++ mg :: after /\
    length before = length (filter (is_header patterns) []) /\
    length after =
    length (filter (is_header patterns)
              [str "[12/5/23, 9:05:00 PM] Bob: I'm fine"]) /\
    mg = mkMessage (nth 0 example_captures [] ++ str ", " ++
                    nth 1 example_captures [])
                   (trim (nth 2 example_captures []))
                   (join [10] (trim (nth 3 example_captures [])
                               :: [str "how are you?"]))
                   (nth 0 example_captures []) (nth 1 example_captures []) /\
    ([str "[12/5/23, 9:05:00 PM] Bob: I'm fine"] = [] ->
     messages r = before ++ [mg]).
Proof.
  apply (continuation_lines_joined v8_date_valid example_text
           [] example_header example_captures [str "how are you?"]
           [str "[12/5/23, 9:05:00 PM] Bob: I'm fine"]).
  - vm_compute; reflexivity.
  - vm_compute; reflexivity.
  - repeat constructor; vm_compute; reflexivity.
  - vm_compute; discriminate.
Defined.

Lemma participants_sorted_distinct_witness :
  parseWhatsAppChat v8_date_valid example_text = Some example_result /\
  StronglySorted str_le (participants example_result) /\
  NoDup (participants example_result) /\
  (forall s, In s (participants example_result) <->
             exists mg, In mg (messages example_result) /\ sender mg = s) /\
  (forall s, In s (participants example_result) ->
     (exists line caps,
        In line (split 10 example_text) /\
        first_match patterns line = Some caps /\
        s = trim (nth 2 caps [])) /\
     match s with [] => True | c :: _ => is_space c = false end /\
     match rev s with [] => True | c :: _ => is_space c = false end).
Proof.
  split; [vm_compute; reflexivity|].
  apply (participants_sorted_distinct v8_date_valid example_text).
  vm_compute; reflexivity.
Defined.

Lemma leading_lines_discarded_witness :
  parseWhatsAppChat v8_date_valid
    (str "Messages are end-to-end encrypted" ++ [10] ++ example_text) =
  parseWhatsAppChat v8_date_valid example_text.
Proof.
  apply (leading_lines_discarded v8_date_valid
           (str "Messages are end-to-end encrypted" ++ [10] ++ example_text)
           example_text [str "Messages are end-to-end encrypted"]).
  - vm_compute; reflexivity.
  - repeat constructor; vm_compute; reflexivity.
Defined.

Lemma group_name_constant_witness :
  parseWhatsAppChat v8_date_valid example_text = Some example_result /\
  groupName example_result = str "Zero to One".
Proof.
  split; [vm_compute; reflexivity|].
  apply (group_name_constant v8_date_valid example_text).
  vm_compute; reflexivity.
Defined.

(* ================================================================= *)
(** ** The matcher is sound for the words of a pattern *)

Lemma rep_sound {A : Type} (c : N -> bool) (s : jsstring) :
  forall lo hi e (k : nat -> jsstring -> option A) z,
    rep c lo hi e s k = Some z ->
    exists w s',
      s = w ++ s' /\ forallb c w = true /\ (lo <= length w)%nat /\
      match hi with Some h => (length w <= h)%nat | None => True end /\
      k (e + length w)%nat s' = Some z.
Proof.
  induction s as [|ch s IH]; intros lo hi e k z; cbn [rep].
  - intros H; exists [], []; cbn; rewrite Nat.add_0_r.
    destruct lo; [|destruct hi as [[|h]|]; discriminate].
    repeat split; try lia; destruct hi as [[|h]|]; auto; lia.
  - assert (Hstop : match lo with O => k e (ch :: s) | S _ => None end
                    = Some z ->
                    exists w s',
                      ch :: s = w ++ s' /\ forallb c w = true /\
                      (lo <= length w)%nat /\
                      match hi with
                      | Some h => (length w <= h)%nat | None => True end /\
                      k (e + length w)%nat s' = Some z).
    { destruct lo; [|discriminate]; intros H.
      exists [], (ch :: s); cbn; rewrite Nat.add_0_r.
      repeat split; try lia; destruct hi; auto; lia. }
    assert (Hmore : forall hi',
              option_map pred hi = hi' ->
              hi <> Some O ->
              rep c (pred lo) hi' (S e) s k = Some z ->
              c ch = true ->
              exists w s',
                ch :: s = w ++ s' /\ forallb c w = true /\
                (lo <= length w)%nat /\
                match hi with
                | Some h => (length w <= h)%nat | None => True end /\
                k (e + length w)%nat s' = Some z).
    { intros hi' Hhi Hne H Hc; apply IH in H.
      destruct H as (w & s' & -> & Hw & Hlo & Hh & Hk).
      exists (ch :: w), s'; cbn [app forallb length]; rewrite Hc, Hw.
      rewrite Nat.add_succ_r; repeat split; [lia | | exact Hk].
      subst hi'; destruct hi as [[|h]|]; cbn in *; [congruence | lia | auto]. }
    destruct hi as [[|h]|]; [exact Hstop | |];
      (destruct (c ch) eqn:Ec; [|exact Hstop]);
      (destruct (rep c (pred lo) _ (S e) s k) eqn:E; [|exact Hstop]);
      intros [= <-]; eapply Hmore; eauto; discriminate.
Qed.

Lemma m_sound {A : Type} (r : regex) :
  forall x (K : MatchState -> option A) z,
    m r x K = Some z ->
    exists w after caps,
      rest x = w ++ after /\
      Matches r (endIndex x) w after caps /\
      K (mkState (endIndex x + length w) after (captures x ++ caps))
      = Some z.
Proof.
  induction r as [| |c|c lo hi|r IH|r1 IH1 r2 IH2|r IH];
    intros [e s cs] K z; cbn [m endIndex rest captures].
  - destruct e; cbn [Nat.eqb]; [|discriminate]; intros H.
    exists [], s, []; cbn; rewrite app_nil_r; repeat split;
      [constructor | exact H].
  - destruct s; [|discriminate]; intros H.
    exists [], [], []; cbn; rewrite app_nil_r, Nat.add_0_r; repeat split;
      [constructor | exact H].
  - destruct s as [|ch s]; [discriminate|].
    destruct (c ch) eqn:Ec; [|discriminate]; intros H.
    exists [ch], s, []; cbn; rewrite app_nil_r, Nat.add_1_r; repeat split;
      [now constructor | exact H].
  - intros H; apply rep_sound in H.
    destruct H as (w & s' & -> & Hw & Hlo & Hhi & Hk).
    exists w, s', []; rewrite app_nil_r; repeat split;
      [now constructor | exact Hk].
  - destruct (m r _ _) as [z'|] eqn:E.
    + intros [= <-]; apply IH in E.
      destruct E as (w & after & caps & Hs & Hm & Hk).
      cbn [endIndex rest captures] in *.
      exists w, after, caps; repeat split; [exact Hs | now constructor |].
      cbn [endIndex] in Hk.
      destruct (e + length w =? e)%nat; [discriminate | exact Hk].
    + intros H; exists [], s, []; cbn; rewrite app_nil_r, Nat.add_0_r.
      repeat split; [constructor | exact H].
  - intros H; apply IH1 in H.
    destruct H as (w1 & after1 & caps1 & Hs1 & Hm1 & H).
    apply IH2 in H; destruct H as (w2 & after & caps2 & Hs2 & Hm2 & H).
    cbn [endIndex rest captures] in *; subst after1.
    exists (w1 ++ w2), after, (caps1 ++ caps2).
    rewrite length_app, Nat.add_assoc, <- app_assoc, (app_assoc cs).
    repeat split; [exact Hs1 | now constructor | exact H].
  - intros H; apply IH in H.
    destruct H as (w & after & caps & Hs & Hm & H).
    cbn [endIndex rest captures] in *.
    exists w, after, (caps ++ [w]); repeat split;
      [exact Hs | now constructor |].
    subst s; rewrite app_assoc.
    replace (e + length w - e)%nat with (length w + 0)%nat in H by lia.
    now rewrite firstn_app_2, firstn_O, app_nil_r in H.
Qed.

(* ----------------------------------------------------------------- *)
(** *** Taking a derivation apart *)

Lemma Matches_Chr_inv c e w after caps :
  Matches (Chr c) e w after caps ->
  exists ch, w = [ch] /\ caps = [] /\ c ch = true.
Proof. inversion 1; subst; eauto. Qed.

Lemma Matches_Rep_inv c lo hi e w after caps :
  Matches (Rep c lo hi) e w after caps ->
  caps = [] /\ forallb c w = true /\ (lo <= length w)%nat /\
  match hi with Some h => (length w <= h)%nat | None => True end.
Proof. inversion 1; subst; auto. Qed.

Lemma Matches_Eol_inv e w after caps :
  Matches Eol e w after caps -> w = [] /\ after = [] /\ caps = [].
Proof. inversion 1; subst; auto. Qed.

Lemma Matches_Opt_inv r e w after caps :
  Matches (Opt r) e w after caps ->
  (w = [] /\ caps = []) \/ Matches r e w after caps.
Proof. inversion 1; subst; auto. Qed.

Lemma Matches_Cat_inv r1 r2 e w after caps :
  Matches (Cat r1 r2) e w after caps ->
  exists w1 w2 caps1 caps2,
    w = w1 ++ w2 /\ caps = caps1 ++ caps2 /\
    Matches r1 e w1 (w2 ++ after) caps1 /\
    Matches r2 (e + length w1) w2 after caps2.
Proof. inversion 1; subst; eauto 10. Qed.

Lemma Matches_Cap_inv r e w after caps :
  Matches (Cap r) e w after caps ->
  exists caps1, caps = caps1 ++ [w] /\ Matches r e w after caps1.
Proof. inversion 1; subst; eauto. Qed.

Lemma lit_eq (a : ascii) (ch : N) : lit a ch = true -> ch = N_of_ascii a.
Proof. unfold lit; apply N.eqb_eq. Qed.

Section Peel.
Local Open Scope regex_scope.

Lemma peel_Chr c R e w after caps :
  Matches (Chr c ;; R) e w after caps ->
  exists ch w' e',
    w = ch :: w' /\ c ch = true /\ Matches R e' w' after caps.
Proof.
  intros H; apply Matches_Cat_inv in H.
  destruct H as (w1 & w2 & c1 & c2 & -> & -> & H1 & H2).
  apply Matches_Chr_inv in H1; destruct H1 as (ch & -> & -> & Hc).
  exists ch, w2; eauto.
Qed.

Lemma peel_Rep c lo hi R e w after caps :
  Matches (Rep c lo hi ;; R) e w after caps ->
  exists u w' e',
    w = u ++ w' /\ forallb c u = true /\ (lo <= length u)%nat /\
    match hi with Some h => (length u <= h)%nat | None => True end /\
    Matches R e' w' after caps.
Proof.
  intros H; apply Matches_Cat_inv in H.
  destruct H as (w1 & w2 & c1 & c2 & -> & -> & H1 & H2).
  apply Matches_Rep_inv in H1; destruct H1 as (-> & Hc & Hlo & Hhi).
  exists w1, w2; eauto 10.
Qed.

Lemma peel_Cap r R e w after caps :
  Matches (Cap r ;; R) e w after caps ->
  exists u w' caps1 caps2 e',
    w = u ++ w' /\ caps = caps1 ++ [u] ++ caps2 /\
    Matches r e u (w' ++ after) caps1 /\ Matches R e' w' after caps2.
Proof.
  intros H; apply Matches_Cat_inv in H.
  destruct H as (w1 & w2 & c1 & c2 & -> & -> & H1 & H2).
  apply Matches_Cap_inv in H1; destruct H1 as (c1' & -> & H1).
  exists w1, w2, c1', c2; rewrite <- app_assoc; eauto 10.
Qed.

(** The date group. *)
Lemma date_group_shape e w after caps :
  Matches (Rep is_digit 1 (Some 2%nat) ;; Chr (lit "/") ;;
           Rep is_digit 1 (Some 2%nat) ;; Chr (lit "/") ;;
           Rep is_digit 2 (Some 4%nat)) e w after caps ->
  date_shape w /\ caps = [].
Proof.
  intros H.
  apply peel_Rep in H; destruct H as (dd & w1 & e1 & -> & Hd & Hd1 & Hd2 & H).
  apply peel_Chr in H; destruct H as (c1 & w2 & e2 & -> & Hc1 & H).
  apply peel_Rep in H; destruct H as (mm & w3 & e3 & -> & Hm & Hm1 & Hm2 & H).
  apply peel_Chr in H; destruct H as (c2 & w4 & e4 & -> & Hc2 & H).
  apply Matches_Rep_inv in H; destruct H as (-> & Hy & Hy1 & Hy2).
  apply lit_eq in Hc1, Hc2; subst c1 c2.
  split; [|reflexivity].
  exists dd, mm, w4; unfold digits; repeat split; auto.
Qed.

Lemma time_char_digits (w : jsstring) :
  forallb is_digit w = true -> forallb time_char w = true.
Proof.
  intros H; rewrite forallb_forall in *; intros c Hc.
  unfold time_char; now rewrite (H c Hc).
Qed.

Lemma time_char_spaces (w : jsstring) :
  forallb is_space w = true -> forallb time_char w = true.
Proof.
  intros H; rewrite forallb_forall in *; intros c Hc.
  unfold time_char; rewrite (H c Hc); now rewrite !orb_true_r.
Qed.

(** The marker [\s*[AP]M], where the group has it. *)
Lemma marker_shape e w after caps :
  Matches (Rep is_space 0 None ;; Chr is_AP ;; Chr (lit_i "M"))
          e w after caps ->
  forallb time_char w = true /\ caps = [].
Proof.
  intros H.
  apply peel_Rep in H; destruct H as (u & w1 & e1 & -> & Hu & _ & _ & H).
  apply peel_Chr in H; destruct H as (p & w2 & e2 & -> & Hp & H).
  apply Matches_Chr_inv in H; destruct H as (q & -> & -> & Hq).
  split; [|reflexivity].
  rewrite forallb_app, (time_char_spaces u Hu); cbn.
  unfold time_char; rewrite Hp, Hq; now rewrite !orb_true_r.
Qed.

Lemma optional_marker_shape e w after caps :
  Matches (Opt (Rep is_space 0 None ;; Chr is_AP ;; Chr (lit_i "M")))
          e w after caps ->
  forallb time_char w = true /\ caps = [].
Proof.
  intros H; apply Matches_Opt_inv in H.
  destruct H as [[-> ->] | H]; [now split | now apply marker_shape in H].
Qed.

(** The time group of pattern 1. *)
Lemma time_group_1_shape e w after caps :
  Matches (Rep is_digit 1 (Some 2%nat) ;; Chr (lit ":") ;;
           Rep is_digit 2 (Some 2%nat) ;;
           Opt (Chr (lit ":") ;; Rep is_digit 2 (Some 2%nat)) ;;
           Opt (Rep is_space 0 None ;; Chr is_AP ;; Chr (lit_i "M")))
          e w after caps ->
  forallb time_char w = true /\ caps = [].
Proof.
  intros H.
  apply peel_Rep in H; destruct H as (hh & w1 & e1 & -> & Hh & _ & _ & H).
  apply peel_Chr in H; destruct H as (c1 & w2 & e2 & -> & Hc1 & H).
  apply peel_Rep in H; destruct H as (mi & w3 & e3 & -> & Hmi & _ & _ & H).
  apply Matches_Cat_inv in H.
  destruct H as (ss & mk & cs1 & cs2 & -> & -> & Hs & Hk).
  apply optional_marker_shape in Hk; destruct Hk as [Hk ->].
  apply lit_eq in Hc1; subst c1.
  assert (Hss : forallb time_char ss = true /\ cs1 = []).
  { apply Matches_Opt_inv in Hs; destruct Hs as [[-> ->] | Hs]; [now split|].
    apply peel_Chr in Hs; destruct Hs as (c2 & w4 & e4 & -> & Hc2 & Hs).
    apply Matches_Rep_inv in Hs; destruct Hs as (-> & Hd & _ & _).
    apply lit_eq in Hc2; subst c2; split; [|reflexivity].
    cbn [forallb]; now rewrite (time_char_digits w4 Hd). }
  destruct Hss as [Hss ->]; split; [|reflexivity].
  rewrite forallb_app, (time_char_digits hh Hh); cbn [forallb andb].
  rewrite forallb_app, (time_char_digits mi Hmi), forallb_app, Hss, Hk.
  reflexivity.
Qed.

(** The time group of pattern 2. *)
Lemma time_group_2_shape e w after caps :
  Matches (Rep is_digit 1 (Some 2%nat) ;; Chr (lit ":") ;;
           Rep is_digit 2 (Some 2%nat) ;;
           Opt (Rep is_space 0 None ;; Chr is_AP ;; Chr (lit_i "M")))
          e w after caps ->
  forallb time_char w = true /\ caps = [].
Proof.
  intros H.
  apply peel_Rep in H; destruct H as (hh & w1 & e1 & -> & Hh & _ & _ & H).
  apply peel_Chr in H; destruct H as (c1 & w2 & e2 & -> & Hc1 & H).
  apply Matches_Cat_inv in H.
  destruct H as (mi & mk & cs1 & cs2 & -> & -> & Hmi & Hk).
  apply Matches_Rep_inv in Hmi; destruct Hmi as (-> & Hmi & _ & _).
  apply optional_marker_shape in Hk; destruct Hk as [Hk ->].
  apply lit_eq in Hc1; subst c1; split; [|reflexivity].
  rewrite forallb_app, (time_char_digits hh Hh); cbn [forallb andb].
  now rewrite forallb_app, (time_char_digits mi Hmi), Hk.
Qed.

(** From the sender on, the patterns are the same. *)
Lemma sender_and_text e w after caps :
  Matches (Cap (Rep not_colon 1 None) ;; Chr (lit ":") ;;
           Rep is_space 0 None ;; Cap (Rep is_dot 0 None) ;; Eol)
          e w after caps ->
  exists s w2 b,
    w = s ++ [58] ++ w2 ++ b /\ after = [] /\ caps = [s; b] /\
    s <> [] /\ forallb not_colon s = true /\
    forallb is_space w2 = true /\ forallb is_dot b = true.
Proof.
  intros H.
  apply peel_Cap in H.
  destruct H as (s & w1 & cs1 & cs2 & e1 & -> & -> & Hs & H).
  apply Matches_Rep_inv in Hs; destruct Hs as (-> & Hs & Hs1 & _).
  apply peel_Chr in H; destruct H as (c & w2 & e2 & -> & Hc & H).
  apply peel_Rep in H; destruct H as (sp & w3 & e3 & -> & Hsp & _ & _ & H).
  apply peel_Cap in H.
  destruct H as (b & w4 & cs3 & cs4 & e4 & -> & -> & Hb & H).
  apply Matches_Rep_inv in Hb; destruct Hb as (-> & Hb & _ & _).
  apply Matches_Eol_inv in H; destruct H as (-> & -> & ->).
  apply lit_eq in Hc; subst c.
  exists s, sp, b; rewrite app_nil_r; repeat split; auto.
  destruct s; [cbn in Hs1; lia | discriminate].
Qed.

End Peel.

Lemma rx_match_words (R : regex) (line : jsstring) (caps : list jsstring) :
  rx_match (Cat Bol R) line = Some caps ->
  exists w after, line = w ++ after /\ Matches R 0 w after caps.
Proof.
  rewrite rx_match_Bol; intros H; apply m_sound in H.
  destruct H as (w & after & cs & Hl & Hm & [= <-]).
  exists w, after; split; [exact Hl | exact Hm].
Qed.

Lemma pattern1_anatomy (line : jsstring) (caps : list jsstring) :
  rx_match pattern1 line = Some caps -> header_anatomy line caps.
Proof.
  unfold pattern1; intros H; apply rx_match_words in H.
  destruct H as (w & after & -> & H).
  apply peel_Chr in H; destruct H as (c0 & w0 & e0 & -> & Hc0 & H).
  apply peel_Cap in H.
  destruct H as (d & w1 & cs1 & cs2 & e1 & -> & -> & Hd & H).
  apply date_group_shape in Hd; destruct Hd as [Hd ->].
  apply peel_Chr in H; destruct H as (c1 & w2 & e2 & -> & Hc1 & H).
  apply peel_Rep in H; destruct H as (sp1 & w3 & e3 & -> & Hsp1 & _ & _ & H).
  apply peel_Cap in H.
  destruct H as (t & w4 & cs3 & cs4 & e4 & -> & -> & Ht & H).
  apply time_group_1_shape in Ht; destruct Ht as [Ht ->].
  apply peel_Chr in H; destruct H as (c2 & w5 & e5 & -> & Hc2 & H).
  apply peel_Rep in H; destruct H as (sp2 & w6 & e6 & -> & Hsp2 & _ & _ & H).
  apply sender_and_text in H.
  destruct H as (s & sp3 & b & -> & -> & -> & Hs & Hs' & Hsp3 & Hb).
  apply lit_eq in Hc0, Hc1, Hc2; subst c0 c1 c2.
  exists d, t, s, b, [91], sp1, ([93] ++ sp2), sp3.
  split; [reflexivity|]; split.
  { cbn [app]; rewrite ?app_nil_r, <- ?app_assoc; cbn [app].
    reflexivity. }
  repeat (split; [assumption|]).
  left; split; [reflexivity|]; now exists sp2.
Qed.

Lemma pattern2_anatomy (line : jsstring) (caps : list jsstring) :
  rx_match pattern2 line = Some caps -> header_anatomy line caps.
Proof.
  unfold pattern2; intros H; apply rx_match_words in H.
  destruct H as (w & after & -> & H).
  apply peel_Cap in H.
  destruct H as (d & w1 & cs1 & cs2 & e1 & -> & -> & Hd & H).
  apply date_group_shape in Hd; destruct Hd as [Hd ->].
  apply peel_Chr in H; destruct H as (c1 & w2 & e2 & -> & Hc1 & H).
  apply peel_Rep in H; destruct H as (sp1 & w3 & e3 & -> & Hsp1 & _ & _ & H).
  apply peel_Cap in H.
  destruct H as (t & w4 & cs3 & cs4 & e4 & -> & -> & Ht & H).
  apply time_group_2_shape in Ht; destruct Ht as [Ht ->].
  apply peel_Rep in H; destruct H as (sp2 & w5 & e5 & -> & Hsp2 & _ & _ & H).
  apply peel_Chr in H; destruct H as (c2 & w6 & e6 & -> & Hc2 & H).
  apply peel_Rep in H; destruct H as (sp3 & w7 & e7 & -> & Hsp3 & _ & _ & H).
  apply sender_and_text in H.
  destruct H as (s & sp4 & b & -> & -> & -> & Hs & Hs' & Hsp4 & Hb).
  apply lit_eq in Hc1, Hc2; subst c1 c2.
  exists d, t, s, b, [], sp1, (sp2 ++ [45] ++ sp3), sp4.
  split; [reflexivity|]; split.
  { cbn [app]; rewrite ?app_nil_r, <- ?app_assoc; cbn [app].
    reflexivity. }
  repeat (split; [assumption|]).
  right; split; [reflexivity|]; now exists sp2, sp3.
Qed.

(** A match of the table is a match of pattern 1 or of pattern 2. *)
Lemma first_match_cases (line : jsstring) (caps : list jsstring) :
  first_match patterns line = Some caps ->
  rx_match pattern1 line = Some caps \/ rx_match pattern2 line = Some caps.
Proof.
  rewrite <- first_match_two; cbn [first_match].
  destruct (rx_match pattern1 line); [now left|].
  destruct (rx_match pattern2 line); [now right | discriminate].
Qed.

Lemma first_match_anatomy (line : jsstring) (caps : list jsstring) :
  first_match patterns line = Some caps -> header_anatomy line caps.
Proof.
  intros H; apply first_match_cases in H.
  destruct H as [H|H]; [now apply pattern1_anatomy | now apply pattern2_anatomy].
Qed.

(* ================================================================= *)
(** ** The fields of a message *)

Lemma forallb_not_In (p : N -> bool) (c : N) (s : jsstring) :
  forallb p s = true -> p c = false -> ~ In c s.
Proof.
  intros Hs Hc Hin; rewrite forallb_forall in Hs.
  apply Hs in Hin; congruence.
Qed.

Lemma date_argument_shape (dd mm yy : jsstring) :
  forallb is_digit dd = true -> forallb is_digit mm = true ->
  forallb is_digit yy = true ->
  date_argument (dd ++ [47] ++ mm ++ [47] ++ yy) =
  yy ++ [45] ++ mm ++ [45] ++ dd.
Proof.
  intros Hd Hm Hy; unfold date_argument; cbn [app].
  rewrite split_at_separator
    by (apply (forallb_not_In is_digit); [exact Hd | reflexivity]).
  rewrite split_at_separator
    by (apply (forallb_not_In is_digit); [exact Hm | reflexivity]).
  rewrite split_free
    by (apply (forallb_not_In is_digit); [exact Hy | reflexivity]).
  reflexivity.
Qed.

Lemma decimal_digits (w : jsstring) :
  forallb is_digit w = true -> w <> [] -> exists n, decimal w = Some n.
Proof.
  intros Hw Hne; destruct w as [|c w]; [congruence|].
  unfold decimal; rewrite Hw; eauto.
Qed.

(** On V8 a date with a two-digit year from 13 to 31 is always
    refused: the year is read as a month. *)
Lemma v8_refuses_years_13_to_31 (dd mm yy : jsstring) (Y : N) :
  digits 1 2 dd -> digits 1 2 mm -> digits 2 2 yy ->
  decimal yy = Some Y -> 13 <= Y <= 31 ->
  v8_date_valid (date_argument (dd ++ [47] ++ mm ++ [47] ++ yy)) = false.
Proof.
  intros (Hd & Hd1) (Hm & Hm1) (Hy & Hy1) HY HY'.
  rewrite date_argument_shape by assumption.
  unfold v8_date_valid; cbn [app].
  rewrite split_at_separator
    by (apply (forallb_not_In is_digit); [exact Hy | reflexivity]).
  rewrite split_at_separator
    by (apply (forallb_not_In is_digit); [exact Hm | reflexivity]).
  rewrite split_free
    by (apply (forallb_not_In is_digit); [exact Hd | reflexivity]).
  rewrite HY.
  destruct (decimal_digits mm Hm) as [M ->];
    [intros ->; cbn in Hm1; lia|].
  destruct (decimal_digits dd Hd) as [D ->];
    [intros ->; cbn in Hd1; lia|].
  replace (length yy =? 4)%nat with false
    by (symmetry; apply Nat.eqb_neq; lia).
  cbn [andb].
  unfold is_day, is_month.
  replace (1 <=? Y) with true by (symmetry; apply N.leb_le; lia).
  replace (Y <=? 31) with true by (symmetry; apply N.leb_le; lia).
  replace (Y <=? 12) with false by (symmetry; apply N.leb_gt; lia).
  reflexivity.
Qed.

Section Extras.

Variable DateIsValid : jsstring -> bool.

Local Abbreviation parse := (parseWhatsAppChat DateIsValid).

(** X1. A line that a pattern of the table matches is made of an
    optional opening bracket, the date, a comma, the time, the closing
    bracket or a dash, the sender, a colon and the text, in this order
    and with nothing else than white space between them; the four
    captures are the date (digits between two slashes), the time, the
    sender (not empty, without a colon) and the text (without a line
    terminator). *)
Theorem header_line_anatomy (line : jsstring) (caps : list jsstring) :
  first_match patterns line = Some caps -> header_anatomy line caps.
Proof.
  intros H; apply first_match_cases in H.
  destruct H as [H|H].
  - now apply pattern1_anatomy.
  - now apply pattern2_anatomy.
Qed.

(** X2. The sender of a message has no colon in it and neither begins
    nor ends with white space. *)
Theorem sender_without_colon (text : jsstring) (r : ParsedData)
  (mg : Message) :
  parse text = Some r ->
  In mg (messages r) ->
  forallb not_colon (sender mg) = true /\ trim (sender mg) = sender mg.
Proof.
  intros Hr Hin.
  destruct (parsed_message_origin _ _ _ _ Hr Hin)
    as (line & caps & conts & _ & Hm & _ & ->).
  rewrite continue_fold; cbn [sender new_message].
  apply first_match_anatomy in Hm.
  destruct Hm as (d & t & s & b & op & w1 & sep & w2 & -> & _ & _ & _ & _
                  & Hs & _).
  cbn [nth]; split; [now apply trim_forallb | apply trim_idempotent].
Qed.

(** X3. The date of a message is a day and a month of one or two
    digits and a year of two to four digits between slashes, its
    time stamp is the date, a comma, a space and the time, and what
    goes to [Date] is the year, the month and the day between dashes. *)
Theorem date_is_day_month_year (text : jsstring) (r : ParsedData)
  (mg : Message) :
  parse text = Some r ->
  In mg (messages r) ->
  exists dd mm yy,
    digits 1 2 dd /\ digits 1 2 mm /\ digits 2 4 yy /\
    date mg = dd ++ str "/" ++ mm ++ str "/" ++ yy /\
    date_argument (date mg) = yy ++ str "-" ++ mm ++ str "-" ++ dd /\
    timestamp mg = date mg ++ str ", " ++ time mg /\
    forallb time_char (time mg) = true.
Proof.
  intros Hr Hin.
  destruct (parsed_message_origin _ _ _ _ Hr Hin)
    as (line & caps & conts & _ & Hm & _ & ->).
  rewrite continue_fold; cbn [date time timestamp new_message].
  apply first_match_anatomy in Hm.
  destruct Hm as (d & t & s & b & op & w1 & sep & w2 & -> & _ & Hd & Ht & _).
  destruct Hd as (dd & mm & yy & -> & Hdd & Hmm & Hyy).
  cbn [nth]; exists dd, mm, yy.
  do 3 (split; [assumption|]); split; [reflexivity|].
  split; [|split; [reflexivity | exact Ht]].
  apply date_argument_shape; [apply Hdd | apply Hmm | apply Hyy].
Qed.

End Extras.

(* ================================================================= *)
(** ** Bodies, line ends and inputs put together *)

Lemma parsed_messages_emit (DateIsValid : jsstring -> bool)
  (text : jsstring) :
  parsed_messages (parseWhatsAppChat DateIsValid text) =
  emit patterns None (split 10 text).
Proof.
  unfold parseWhatsAppChat; rewrite parseWith_emit.
  now destruct (emit patterns None (split 10 text)).
Qed.

Lemma line_of_text_free (text line : jsstring) :
  In line (split 10 text) -> ~ In 10 line.
Proof.
  intros H; destruct (split_pieces 10 text) as [_ Hf].
  rewrite Forall_forall in Hf; now apply Hf.
Qed.

Lemma last_of_suffix (l front b : jsstring) (c : N) :
  l ++ [c] = front ++ b -> b = [] \/ In c b.
Proof.
  destruct (rev b) as [|x rb] eqn:E; intros H.
  - left; apply (f_equal (@rev N)) in E; now rewrite rev_involutive in E.
  - right; apply (f_equal (@rev N)) in E; rewrite rev_involutive in E.
    cbn in E; subst b; rewrite app_assoc in H.
    apply app_inj_tail in H; destruct H as [_ ->].
    apply in_app_iff; right; now left.
Qed.

(** The text of a header line, when the line ends with a character
    that the dot of a pattern refuses. *)
Lemma text_before_terminator (l : jsstring) (c : N)
  (caps : list jsstring) :
  is_dot c = false ->
  first_match patterns (l ++ [c]) = Some caps ->
  nth 3 caps [] = [].
Proof.
  intros Hc H; apply first_match_anatomy in H.
  destruct H as (d & t & s & b & op & w1 & sep & w2 & -> & Hl & _ & _ & _
                 & _ & Hb & _).
  cbn [nth]; rewrite !app_assoc in Hl.
  apply last_of_suffix in Hl; destruct Hl as [Hl|Hl]; [exact Hl|].
  rewrite forallb_forall in Hb; apply Hb in Hl; congruence.
Qed.

Section Bodies.

Variable DateIsValid : jsstring -> bool.

Local Abbreviation parse := (parseWhatsAppChat DateIsValid).

(** X4. The body of a message, split at its newlines, is the trimmed
    text of a header line of the input followed by lines of the input
    that are neither blank nor header lines: the parser puts nothing
    into a body that the input does not have. *)
Theorem body_lines_from_input (text : jsstring) (r : ParsedData)
  (mg : Message) :
  parse text = Some r ->
  In mg (messages r) ->
  exists line caps conts,
    In line (split 10 text) /\
    first_match patterns line = Some caps /\
    Forall (fun l => In l (split 10 text) /\ blank l = false /\
                     first_match patterns l = None) conts /\
    split 10 (message mg) = trim (nth 3 caps []) :: conts.
Proof.
  intros Hr Hin.
  destruct (parsed_message_origin _ _ _ _ Hr Hin)
    as (line & caps & conts & Hl & Hm & Hc & ->).
  exists line, caps, conts; do 3 (split; [assumption|]).
  rewrite continue_fold; cbn [message new_message].
  apply split_join; [discriminate|]; constructor.
  - intros H10; apply trim_In in H10.
    apply first_match_anatomy in Hm.
    destruct Hm as (d & t & s & b & op & w1 & sep & w2 & -> & _ & _ & _ & _
                    & _ & Hb & _).
    cbn [nth] in H10; rewrite forallb_forall in Hb.
    apply Hb in H10; discriminate.
  - eapply Forall_impl; [|exact Hc]; intros l (Hl' & _).
    now apply line_of_text_free in Hl'.
Qed.

(** X5. A header line that ends with a carriage return, or with
    another character that ends a line, is recognised only when nothing
    but white space follows the colon: its text is then empty. *)
Theorem header_before_line_terminator (l : jsstring) (c : N)
  (caps : list jsstring) :
  is_dot c = false ->
  first_match patterns (l ++ [c]) = Some caps ->
  message (new_message caps) = [].
Proof.
  intros Hc H; unfold new_message; cbn [message].
  now rewrite (text_before_terminator l c caps Hc H).
Qed.

(** X6. When the second of two inputs begins with a header line, the
    messages of the two put together with a newline are the messages of
    the first followed by the messages of the second. *)
Theorem messages_of_joined_inputs (text1 text2 : jsstring) :
  match split 10 text2 with
  | h :: _ => first_match patterns h <> None
  | [] => False
  end ->
  parsed_messages (parse (text1 ++ [10] ++ text2)) =
  parsed_messages (parse text1) ++ parsed_messages (parse text2).
Proof.
  intros Hh; rewrite !parsed_messages_emit; cbn [app].
  rewrite split_append.
  destruct (split 10 text2) as [|h rest]; [contradiction|].
  apply emit_app_header; now rewrite header_patterns.
Qed.

End Bodies.

(* ================================================================= *)
(** ** Counting by participant *)

(** The participants of a result: no duplicate, and the senders. *)
Lemma participants_sorted_set_facts (DateIsValid : jsstring -> bool)
  (text : jsstring) (pd : ParsedData) :
  parseWhatsAppChat DateIsValid text = Some pd ->
  NoDup (participants pd) /\
  (forall s, In s (participants pd) <->
             exists mg, In mg (messages pd) /\ sender mg = s).
Proof.
  intros Hr; apply parseWith_messages in Hr; destruct Hr as (Hm & Hp & _).
  destruct (scan_participants patterns (split 10 text)) as [Hn Hi].
  rewrite Hp; split.
  - eapply Permutation_NoDup; [apply sort_perm | exact Hn].
  - intros s; rewrite Hm, <- flush_scan.
    rewrite <- (Permutation_in' (eq_refl s) (sort_perm _)), Hi, in_map_iff.
    split; intros (mg & H1 & H2); exists mg; now split.
Qed.



Lemma str_eqb_eq (a b : jsstring) : str_eqb a b = true <-> a = b.
Proof.
  unfold str_eqb; destruct (jsstring_eq_dec a b); split; congruence.
Qed.

Lemma list_sum_map_add {A : Type} (f g : A -> nat) (l : list A) :
  list_sum (map (fun a => f a + g a)%nat l) =
  (list_sum (map f l) + list_sum (map g l))%nat.
Proof.
  unfold list_sum; induction l as [|a l IH]; [reflexivity|].
  cbn [map fold_right]; rewrite IH; lia.
Qed.

Lemma one_participant (x : jsstring) (ps : list jsstring) :
  NoDup ps -> In x ps ->
  list_sum (map (fun p => if str_eqb x p then 1 else 0)%nat ps) = 1%nat.
Proof.
  unfold list_sum.
  induction 1 as [|p ps Hp Hn IH]; [intros []|]; cbn [map fold_right].
  intros [<- | Hin].
  - replace (str_eqb p p) with true by (symmetry; now apply str_eqb_eq).
    assert (H0 : fold_right Nat.add 0%nat
                   (map (fun q => if str_eqb p q then 1 else 0)%nat ps)
                 = 0%nat).
    { clear -Hp; induction ps as [|q ps IH]; [reflexivity|].
      cbn [map fold_right].
      destruct (str_eqb p q) eqn:E;
        [apply str_eqb_eq in E; subst; exfalso; apply Hp; now left|].
      rewrite IH; [reflexivity|]; intros H; apply Hp; now right. }
    rewrite H0; reflexivity.
  - destruct (str_eqb x p) eqn:E;
      [apply str_eqb_eq in E; subst; contradiction|].
    now rewrite IH.
Qed.

Lemma counts_add_up (ps : list jsstring) (l : list Message) :
  NoDup ps ->
  (forall mg, In mg l -> In (sender mg) ps) ->
  list_sum
    (map (fun p => length (filter (fun mg => str_eqb (sender mg) p) l)) ps)
  = length l.
Proof.
  intros Hn; induction l as [|mg l IH]; intros Hin.
  - clear; unfold list_sum; cbn [filter length].
    induction ps as [|p ps IH]; [reflexivity|].
    cbn [map fold_right]; now rewrite IH.
  - rewrite (map_ext _
      (fun p => (if str_eqb (sender mg) p then 1 else 0) +
                length (filter (fun mg => str_eqb (sender mg) p) l))%nat)
      by (intros p; cbn [filter]; now destruct (str_eqb (sender mg) p)).
    rewrite list_sum_map_add, one_participant, IH.
    + reflexivity.
    + intros mg' H; apply Hin; now right.
    + exact Hn.
    + apply Hin; now left.
Qed.

Lemma participant_sent_one (DateIsValid : jsstring -> bool)
  (text : jsstring) (pd : ParsedData) (p : jsstring) :
  parseWhatsAppChat DateIsValid text = Some pd ->
  In p (participants pd) ->
  (1 <= participant_count pd p)%nat.
Proof.
  intros Hr Hp.
  destruct (participants_sorted_set_facts DateIsValid text pd Hr) as (_ & Hi).
  apply Hi in Hp; destruct Hp as (mg & Hmg & Hs); unfold participant_count.
  assert (H : In mg (filter (fun m => str_eqb (sender m) p) (messages pd)))
    by (apply filter_In; split; [exact Hmg | now apply str_eqb_eq]).
  destruct (filter _ _); [destruct H | cbn; lia].
Qed.

Section Counts.

Variable DateIsValid : jsstring -> bool.

Local Abbreviation parse := (parseWhatsAppChat DateIsValid).

(** X7. Every participant sent at least one message, the counts shown
    beside the participants add up to the number of messages, and there
    are between one participant and as many as there are messages. *)
Theorem participant_counts_add_up (text : jsstring) (pd : ParsedData) :
  parse text = Some pd ->
  Forall (fun p => (1 <= participant_count pd p)%nat) (participants pd) /\
  list_sum (map (participant_count pd) (participants pd)) = messageCount pd /\
  (1 <= length (participants pd) <= messageCount pd)%nat.
Proof.
  intros Hr.
  destruct (participants_sorted_set_facts DateIsValid text pd Hr)
    as (Hn & Hi).
  destruct (parseWith_messages _ _ _ _ Hr) as (Hm & _ & Hc).
  assert (Hone : Forall (fun p => (1 <= participant_count pd p)%nat)
                   (participants pd)).
  { apply Forall_forall; intros p Hp.
    exact (participant_sent_one DateIsValid text pd p Hr Hp). }
  assert (Hsum : list_sum (map (participant_count pd) (participants pd))
                 = messageCount pd).
  { rewrite Hc; apply counts_add_up; [exact Hn|].
    intros mg Hmg; apply Hi; now exists mg. }
  split; [exact Hone|]; split; [exact Hsum|]; split.
  - destruct (messages pd) as [|mg l] eqn:E.
    + unfold parseWhatsAppChat in Hr; rewrite parseWith_emit, <- Hm in Hr.
      discriminate.
    + assert (H : In (sender mg) (participants pd))
        by (apply Hi; exists mg; split; [now left | reflexivity]).
      destruct (participants pd); [destruct H | cbn; lia].
  - rewrite <- Hsum; clear -Hone; unfold list_sum.
    induction Hone as [|p ps Hp _ IH]; [reflexivity|].
    cbn [map fold_right length]; lia.
Qed.

End Counts.

(* ================================================================= *)
(** ** Uploading a file *)

Section Upload.

Variable DateIsValid : jsstring -> bool.

Local Abbreviation parse := (parseWhatsAppChat DateIsValid).
Local Abbreviation resume := (handleFileUpload_resume DateIsValid).
Local Abbreviation alone := (handleFileUpload_alone DateIsValid).
Local Abbreviation run := (page_run DateIsValid).

Lemma parse_has_messages (text : jsstring) (pd : ParsedData) :
  parse text = Some pd -> (length (messages pd) =? 0)%nat = false.
Proof.
  unfold parseWhatsAppChat; rewrite parseWith_emit.
  destruct (emit patterns None (split 10 text)); [discriminate|].
  now intros [= <-].
Qed.

(** What the second part of the handler leaves, on any state. *)
Lemma resume_state (st : PageState) (f : File) :
  resume st f =
  match file_text f with
  | Some text =>
      match parse text with
      | Some pd =>
          mkPage (file st) (Some pd) (error st) false
                 (searchTerm st) (selectedSender st)
      | None =>
          mkPage (file st) None could_not_parse false
                 (searchTerm st) (selectedSender st)
      end
  | None =>
      mkPage (file st) None error_reading false
             (searchTerm st) (selectedSender st)
  end.
Proof.
  unfold handleFileUpload_resume.
  destruct (file_text f) as [text|]; [|reflexivity].
  destruct (parse text) as [pd|] eqn:E; [|reflexivity].
  now rewrite (parse_has_messages text pd E).
Qed.

Lemma parse_none_iff (text : jsstring) :
  parse text = None <->
  Forall (fun line => first_match patterns line = None) (split 10 text).
Proof.
  unfold parseWhatsAppChat; rewrite parseWith_emit.
  rewrite <- Forall_header_patterns, <- emit_none_nil.
  destruct (emit patterns None (split 10 text)); split; congruence.
Qed.

(** Events that are not the settling of a read leave the result. *)
Lemma run_keeps_parsedData (events : list page_event) :
  Forall (fun ev => match ev with ReadSettled _ => False | _ => True end)
    events ->
  forall st, parsedData (run events st) = parsedData st.
Proof.
  induction 1 as [|ev events Hev _ IH]; intros st; [reflexivity|].
  unfold page_run in *; cbn [fold_left]; rewrite IH.
  destruct ev as [files|f|term|sender]; try reflexivity; [|contradiction].
  destruct files; reflexivity.
Qed.

(** X8. When the second part of the handler has run, on whatever
    state the page was in, the page is no longer loading, the file, the
    search term and the selected sender are as they were, a missing
    result comes with one of the two error messages, and a result
    leaves the error as it was.  So a run of the handler with nothing
    in between ends with either a result and no error, or an error and
    no result; but when two uploads have both begun, the first of a
    text without a header line and the second of a text that parses,
    and their reads settle in that order, the page ends with the error
    of the first and the result of the second. *)
Theorem upload_error_or_data :
  (forall (st : PageState) (f : File),
     let st' := resume st f in
     loading st' = false /\
     file st' = file st /\
     searchTerm st' = searchTerm st /\
     selectedSender st' = selectedSender st /\
     (parsedData st' = None ->
      error st' = could_not_parse \/ error st' = error_reading) /\
     (parsedData st' <> None -> error st' = error st)) /\
  (forall (st : PageState) (f : File) (others : list File),
     let st' := alone st (f :: others) in
     loading st' = false /\
     file st' = Some f /\
     searchTerm st' = searchTerm st /\
     selectedSender st' = selectedSender st /\
     ((error st' = [] /\ exists pd, parsedData st' = Some pd) \/
      (error st' <> [] /\ parsedData st' = None))) /\
  (forall (st : PageState) (bad good : File) (text text' : jsstring)
          (pd : ParsedData),
     file_text bad = Some text ->
     Forall (fun line => first_match patterns line = None)
       (split 10 text) ->
     file_text good = Some text' ->
     parse text' = Some pd ->
     let st' := run [FilesChosen [bad]; FilesChosen [good];
                     ReadSettled bad; ReadSettled good] st in
     error st' = could_not_parse /\ parsedData st' = Some pd /\
     file st' = Some good /\ loading st' = false).
Proof.
  split; [|split].
  - intros st f; cbv zeta; rewrite resume_state.
    destruct (file_text f) as [text|];
      [destruct (parse text) as [pd|]|]; cbn;
      repeat split; auto; try discriminate; try congruence.
  - intros st f others; cbv zeta.
    unfold handleFileUpload_alone, handleFileUpload_start.
    rewrite resume_state.
    destruct (file_text f) as [text|];
      [destruct (parse text) as [pd|]|]; cbn;
      repeat split; try (right; split; [discriminate | reflexivity]).
    left; split; [reflexivity | now exists pd].
  - intros st bad good text text' pd Hbad Hnone Hgood Hpd; cbv zeta.
    apply parse_none_iff in Hnone.
    unfold page_run; cbn [fold_left page_step handleFileUpload_start fst].
    rewrite !resume_state, Hbad, Hnone, Hgood, Hpd.
    now repeat split.
Qed.

(** X9. When the read of a file settles, on whatever state, the page
    keeps what the parser returns for its text, the test on an empty
    list of messages never turning a result down, with the error that
    it could not parse when the parser returns nothing and the error as
    it was otherwise; a file that cannot be read gives no result and
    the other error.  The result stays until another read settles,
    whatever began or was typed before and after.  In a run of the
    handler with nothing in between, the page says that it could not
    parse exactly when no line of the text is a header line, and has no
    error exactly when the parse succeeds. *)
Theorem upload_keeps_the_parse :
  (forall (st : PageState) (f : File),
     let st' := resume st f in
     match file_text f with
     | Some text =>
         parsedData st' = parse text /\
         (parse text = None -> error st' = could_not_parse) /\
         (parse text <> None -> error st' = error st)
     | None => parsedData st' = None /\ error st' = error_reading
     end) /\
  (forall (st : PageState) (f : File) (before after : list page_event),
     Forall (fun ev => match ev with ReadSettled _ => False | _ => True end)
       after ->
     parsedData (run (before ++ ReadSettled f :: after) st) =
     match file_text f with
     | Some text => parse text
     | None => None
     end) /\
  (forall (st : PageState) (f : File) (others : list File)
          (text : jsstring),
     file_text f = Some text ->
     let st' := alone st (f :: others) in
     parsedData st' = parse text /\
     (error st' = could_not_parse <->
      Forall (fun line => first_match patterns line = None)
        (split 10 text)) /\
     (error st' = [] <-> parse text <> None)).
Proof.
  split; [|split].
  - intros st f; cbv zeta; rewrite resume_state.
    destruct (file_text f) as [text|]; [|now split].
    destruct (parse text) as [pd|]; cbn;
      repeat split; auto; try discriminate; congruence.
  - intros st f before after Hafter.
    unfold page_run; rewrite fold_left_app; cbn [fold_left page_step].
    fold (run after (resume (fold_left (page_step DateIsValid) before st) f)).
    rewrite (run_keeps_parsedData after Hafter), resume_state.
    destruct (file_text f) as [text|]; [|reflexivity].
    now destruct (parse text).
  - intros st f others text Hf; cbv zeta.
    unfold handleFileUpload_alone, handleFileUpload_start.
    rewrite resume_state, Hf, <- parse_none_iff.
    destruct (parse text) as [pd|]; cbn.
    + split; [reflexivity|]; split; split; intros H; congruence.
    + split; [reflexivity|]; split; split; intros H;
        try reflexivity; try congruence; discriminate.
Qed.

End Upload.

(* ================================================================= *)
(** ** The list on the page *)

Lemma includes_empty (s : jsstring) : includes s [] = true.
Proof. destruct s; reflexivity. Qed.

Section View.

Variable DateIsValid : jsstring -> bool.
Variable toLowerCase : jsstring -> jsstring.
Hypothesis toLowerCase_empty : toLowerCase [] = [].

Local Abbreviation parse := (parseWhatsAppChat DateIsValid).
Local Abbreviation shown := (filteredMessages toLowerCase).

(** X10. With no search term and all senders selected, as the page
    begins, every message of the result is listed, in order. *)
Theorem default_view_lists_all (st : PageState) (pd : ParsedData) :
  parsedData st = Some pd ->
  searchTerm st = [] ->
  selectedSender st = str "all" ->
  shown st = messages pd.
Proof.
  intros Hp Hs Ha; unfold filteredMessages; rewrite Hp, Hs, Ha.
  rewrite toLowerCase_empty.
  rewrite (filter_ext _ (fun _ => true)).
  - induction (messages pd) as [|mg l IH]; cbn; congruence.
  - intros mg; rewrite includes_empty.
    replace (str_eqb (str "all") (str "all")) with true
      by (symmetry; now apply str_eqb_eq).
    reflexivity.
Qed.

(** X11. With no search term, choosing a participant of the result,
    other than one called "all", lists the messages of that sender and
    no other, as many as the count beside the participant, and at least
    one. *)
Theorem choosing_a_participant (st : PageState) (text : jsstring)
  (pd : ParsedData) (p : jsstring) :
  parse text = Some pd ->
  parsedData st = Some pd ->
  searchTerm st = [] ->
  selectedSender st = p ->
  In p (participants pd) ->
  p <> str "all" ->
  shown st = filter (fun mg => str_eqb (sender mg) p) (messages pd) /\
  length (shown st) = participant_count pd p /\
  (1 <= length (shown st))%nat.
Proof.
  intros Hr Hp Hs Hsel Hin Hne.
  assert (E : shown st =
              filter (fun mg => str_eqb (sender mg) p) (messages pd)).
  { unfold filteredMessages; rewrite Hp, Hs, Hsel, toLowerCase_empty.
    apply filter_ext; intros mg; rewrite includes_empty.
    destruct (str_eqb p (str "all")) eqn:Ea;
      [apply str_eqb_eq in Ea; contradiction | reflexivity]. }
  split; [exact E|]; rewrite E; split; [reflexivity|].
  exact (participant_sent_one DateIsValid text pd p Hr Hin).
Qed.

End View.

(* ================================================================= *)
(** ** Reading the exported table back *)

Lemma read_plain_start (field : jsstring) (record : list jsstring)
  (s : jsstring) :
  match s with [] => True | c :: _ => c <> 34 end ->
  read_csv AtFieldStart field record s = read_csv InPlain field record s.
Proof.
  destruct s as [|c s]; [reflexivity|]; intros H; cbn.
  apply N.eqb_neq in H; now rewrite H.
Qed.

Lemma read_plain_chars (f : jsstring) :
  plain_field f ->
  forall field record rest,
    read_csv InPlain field record (f ++ rest) =
    read_csv InPlain (rev f ++ field) record rest.
Proof.
  induction f as [|c f IH]; intros (H44 & H34 & H10) field record rest;
    [reflexivity|].
  cbn [app read_csv].
  replace (c =? 44) with false
    by (symmetry; apply N.eqb_neq; intros ->; apply H44; now left).
  replace (c =? 10) with false
    by (symmetry; apply N.eqb_neq; intros ->; apply H10; now left).
  rewrite IH by (repeat split; intros H; [apply H44 | apply H34 | apply H10];
                 now right).
  cbn [rev]; now rewrite <- app_assoc.
Qed.

(** A field without quotes, and the comma after it. *)
Lemma read_plain_field (f : jsstring) (record : list jsstring)
  (rest : jsstring) :
  plain_field f ->
  read_csv AtFieldStart [] record (f ++ 44 :: rest) =
  read_csv AtFieldStart [] (f :: record) rest.
Proof.
  intros Hf; rewrite read_plain_start.
  - rewrite (read_plain_chars f Hf); cbn [read_csv].
    rewrite N.eqb_refl, app_nil_r, rev_involutive; reflexivity.
  - destruct f as [|c f]; cbn; [discriminate|].
    destruct Hf as (_ & H34 & _); intros ->; apply H34; now left.
Qed.

(** The field in quotes. *)
Lemma read_quoted_chars (body : jsstring) :
  forall field record rest,
    read_csv InQuoted field record (double_quotes body ++ 34 :: rest) =
    read_csv AfterQuote (rev body ++ field) record rest.
Proof.
  induction body as [|c body IH]; intros field record rest.
  - cbn; reflexivity.
  - cbn [double_quotes]; destruct (c =? 34) eqn:E.
    + apply N.eqb_eq in E; subst c.
      cbn [app read_csv N.eqb Pos.eqb]; rewrite IH.
      cbn [rev]; now rewrite <- app_assoc.
    + cbn [app read_csv]; rewrite E, IH.
      cbn [rev]; now rewrite <- app_assoc.
Qed.

Lemma read_row (mg : Message) (rest : jsstring) :
  plain_message mg ->
  read_csv AtFieldStart [] [] (csv_row mg ++ rest) =
  read_csv AfterQuote (rev (message mg))
    [sender mg; time mg; date mg] rest.
Proof.
  intros (Hd & Ht & Hs); unfold csv_row.
  change (str ",") with [44]; cbn [join].
  repeat (rewrite <- app_assoc; cbn [app]).
  rewrite (read_plain_field (date mg)) by assumption.
  rewrite (read_plain_field (time mg)) by assumption.
  rewrite (read_plain_field (sender mg)) by assumption.
  cbn [read_csv N.eqb Pos.eqb].
  now rewrite read_quoted_chars, app_nil_r.
Qed.

(** The rows after the first one, each begun by a line feed. *)
Lemma read_rows (l : list Message) :
  Forall plain_message l ->
  forall mode field record,
    mode = InPlain \/ mode = AfterQuote ->
    read_csv mode field record
      (concat (map (fun mg => 10 :: csv_row mg) l)) =
    rev (rev field :: record)
    :: map (fun mg => [date mg; time mg; sender mg; message mg]) l.
Proof.
  induction 1 as [|mg l Hmg _ IH]; intros mode field record Hmode.
  - destruct Hmode as [-> | ->]; reflexivity.
  - cbn [map concat app].
    assert (E : read_csv mode field record
                  (10 :: csv_row mg ++
                   concat (map (fun mg => 10 :: csv_row mg) l)) =
                rev (rev field :: record)
                :: read_csv AtFieldStart [] []
                     (csv_row mg ++
                      concat (map (fun mg => 10 :: csv_row mg) l)))
      by (destruct Hmode as [-> | ->]; reflexivity).
    rewrite E, (read_row mg _ Hmg), IH by now right.
    cbn [rev app]; now rewrite rev_involutive.
Qed.

Lemma join_rows {A : Type} (f : A -> jsstring) (l : list A) :
  forall first,
    join [10] (first :: map f l) =
    first ++ concat (map (fun a => 10 :: f a) l).
Proof.
  induction l as [|a l IH]; intros first.
  - cbn; now rewrite app_nil_r.
  - cbn [map concat].
    change (join [10] (first :: f a :: map f l))
      with (first ++ [10] ++ join [10] (f a :: map f l)).
    rewrite IH; reflexivity.
Qed.

Ltac plain_literal :=
  repeat split;
  let H := fresh in
  intros H; vm_compute in H;
  repeat (destruct H as [H|H]; [discriminate|]); exact H.

Lemma read_table (pd : ParsedData) :
  Forall plain_message (messages pd) ->
  read_csv_document (csvContent pd) =
  [str "Date"; str "Time"; str "Sender"; str "Message"]
  :: map (fun mg => [date mg; time mg; sender mg; message mg])
       (messages pd).
Proof.
  intros H; unfold read_csv_document, csvContent.
  rewrite join_rows.
  change (join (str ",") [str "Date"; str "Time"; str "Sender";
                            str "Message"])
    with (str "Date" ++ 44 :: str "Time" ++ 44 :: str "Sender" ++ 44 ::
          str "Message").
  repeat (rewrite <- app_assoc; cbn [app]).
  rewrite (read_plain_field (str "Date")) by plain_literal.
  rewrite (read_plain_field (str "Time")) by plain_literal.
  rewrite (read_plain_field (str "Sender")) by plain_literal.
  rewrite read_plain_start.
  - rewrite (read_plain_chars (str "Message")) by plain_literal.
    rewrite (read_rows _ H) by now left.
    now rewrite app_nil_r, rev_involutive.
  - vm_compute; discriminate.
Qed.

Lemma includes_self (s : jsstring) : includes s s = true.
Proof.
  assert (H : starts_with s s = true)
    by (induction s as [|c s IH]; cbn; [reflexivity|];
        now rewrite N.eqb_refl, IH).
  destruct s; cbn in *; [reflexivity | now rewrite H].
Qed.

Lemma date_shape_chars (d : jsstring) (c : N) :
  date_shape d -> In c d -> is_digit c = true \/ c = 47.
Proof.
  intros (dd & mm & yy & -> & (Hd & _) & (Hm & _) & (Hy & _)) Hin.
  rewrite forallb_forall in Hd, Hm, Hy.
  repeat (apply in_app_or in Hin; destruct Hin as [Hin|Hin]); auto.
  - destruct Hin as [<-|[]]; now right.
  - destruct Hin as [<-|[]]; now right.
Qed.

Lemma parsed_fields_plain (DateIsValid : jsstring -> bool)
  (text : jsstring) (pd : ParsedData) (mg : Message) :
  parseWhatsAppChat DateIsValid text = Some pd ->
  In mg (messages pd) ->
  plain_field (date mg) /\ plain_field (time mg) /\ ~ In 10 (sender mg).
Proof.
  intros Hr Hin.
  destruct (parsed_message_origin _ _ _ _ Hr Hin)
    as (line & caps & conts & Hl & Hm & _ & ->).
  rewrite continue_fold; cbn [date time sender new_message].
  apply line_of_text_free in Hl.
  apply first_match_anatomy in Hm.
  destruct Hm as (d & t & s & b & op & w1 & sep & w2 & -> & -> & Hd & Ht & _).
  cbn [nth].
  assert (H10 : ~ In 10 d /\ ~ In 10 t /\ ~ In 10 s)
    by (repeat split; intros H; apply Hl; rewrite !in_app_iff; tauto).
  destruct H10 as (Hd10 & Ht10 & Hs10).
  rewrite forallb_forall in Ht.
  repeat split; try assumption.
  - intros H; apply (date_shape_chars d 44 Hd) in H.
    destruct H as [H|H]; discriminate.
  - intros H; apply (date_shape_chars d 34 Hd) in H.
    destruct H as [H|H]; discriminate.
  - intros H; apply Ht in H; discriminate.
  - intros H; apply Ht in H; discriminate.
  - intros H; apply trim_In in H; contradiction.
Qed.

Section Table.

Variable DateIsValid : jsstring -> bool.
Variable toLowerCase : jsstring -> jsstring.

Local Abbreviation parse := (parseWhatsAppChat DateIsValid).
Local Abbreviation shown := (filteredMessages toLowerCase).

(** X12. With all senders selected, a search term that is the whole
    body or the whole sender of a message lists that message, whatever
    the host makes of lower case. *)
Theorem search_finds_the_exact_text (st : PageState) (pd : ParsedData)
  (mg : Message) :
  parsedData st = Some pd ->
  selectedSender st = str "all" ->
  In mg (messages pd) ->
  searchTerm st = message mg \/ searchTerm st = sender mg ->
  In mg (shown st).
Proof.
  intros Hp Ha Hin Hs; unfold filteredMessages; rewrite Hp, Ha.
  apply filter_In; split; [exact Hin|].
  replace (str_eqb (str "all") (str "all")) with true
    by (symmetry; now apply str_eqb_eq).
  destruct Hs as [-> | ->]; rewrite includes_self;
    now rewrite ?orb_true_r.
Qed.

(** X13. When no sender has a comma or a double quote in its name, the
    table that the page exports reads back, field by field, as the row
    of titles followed by the date, time, sender and body of every
    message, whatever commas, quotes and newlines the bodies hold: the
    dates and times of parsed messages never need quotes. *)
Theorem exported_table_reads_back (text : jsstring) (pd : ParsedData) :
  parse text = Some pd ->
  Forall (fun mg => ~ In 44 (sender mg) /\ ~ In 34 (sender mg))
    (messages pd) ->
  read_csv_document (csvContent pd) =
  [str "Date"; str "Time"; str "Sender"; str "Message"]
  :: map (fun mg => [date mg; time mg; sender mg; message mg])
       (messages pd).
Proof.
  intros Hr Hs; apply read_table.
  rewrite Forall_forall in *; intros mg Hin.
  destruct (parsed_fields_plain DateIsValid text pd mg Hr Hin)
    as (Hd & Ht & H10).
  destruct (Hs mg Hin) as (H44 & H34).
  repeat split; try assumption; apply Hd || apply Ht.
Qed.

End Table.

(* ================================================================= *)
(** ** The further theorems at work on the scenario *)

Lemma header_line_anatomy_witness :
  header_anatomy example_header example_captures.
Proof.
  apply (header_line_anatomy example_header example_captures).
  vm_compute; reflexivity.
Defined.

Lemma sender_without_colon_witness :
  forallb not_colon (sender example_alice) = true /\
  trim (sender example_alice) = sender example_alice.
Proof.
  apply (sender_without_colon v8_date_valid example_text
           example_result example_alice).
  - vm_compute; reflexivity.
  - left; reflexivity.
Defined.

Lemma date_is_day_month_year_witness :
  exists dd mm yy,
    digits 1 2 dd /\ digits 1 2 mm /\ digits 2 4 yy /\
    date example_alice = dd ++ str "/" ++ mm ++ str "/" ++ yy /\
    date_argument (date example_alice) =
    yy ++ str "-" ++ mm ++ str "-" ++ dd /\
    timestamp example_alice =
    date example_alice ++ str ", " ++ time example_alice /\
    forallb time_char (time example_alice) = true.
Proof.
  apply (date_is_day_month_year v8_date_valid example_text
           example_result example_alice).
  - vm_compute; reflexivity.
  - left; reflexivity.
Defined.

Lemma body_lines_from_input_witness :
  exists line caps conts,
    In line (split 10 example_text) /\
    first_match patterns line = Some caps /\
    Forall (fun l => In l (split 10 example_text) /\ blank l = false /\
                     first_match patterns l = None) conts /\
    split 10 (message example_alice) = trim (nth 3 caps []) :: conts.
Proof.
  apply (body_lines_from_input v8_date_valid example_text
           example_result example_alice).
  - vm_compute; reflexivity.
  - left; reflexivity.
Defined.

Lemma header_before_line_terminator_witness :
  message (new_message [str "1/2/23"; str "9:04"; str "Ann"; []]) = [].
Proof.
  apply (header_before_line_terminator (str "1/2/23, 9:04 - Ann:") 13
           [str "1/2/23"; str "9:04"; str "Ann"; []]).
  - vm_compute; reflexivity.
  - vm_compute; reflexivity.
Defined.

Lemma messages_of_joined_inputs_witness :
  parsed_messages
    (parseWhatsAppChat v8_date_valid
       (example_text ++ [10] ++ str "1/2/23, 9:04 - Ann: hi")) =
  parsed_messages (parseWhatsAppChat v8_date_valid example_text) ++
  parsed_messages
    (parseWhatsAppChat v8_date_valid (str "1/2/23, 9:04 - Ann: hi")).
Proof.
  apply (messages_of_joined_inputs v8_date_valid example_text
           (str "1/2/23, 9:04 - Ann: hi")).
  vm_compute; discriminate.
Defined.

Lemma participant_counts_add_up_witness :
  Forall (fun p => (1 <= participant_count example_result p)%nat)
    (participants example_result) /\
  list_sum (map (participant_count example_result)
              (participants example_result)) =
  messageCount example_result /\
  (1 <= length (participants example_result)
     <= messageCount example_result)%nat.
Proof.
  apply (participant_counts_add_up v8_date_valid example_text
           example_result).
  vm_compute; reflexivity.
Defined.

Lemma default_view_lists_all_witness :
  filteredMessages ascii_lower example_page = messages example_result.
Proof.
  apply (default_view_lists_all ascii_lower eq_refl example_page
           example_result); reflexivity.
Defined.

Lemma choosing_a_participant_witness :
  filteredMessages ascii_lower example_page_alice =
  filter (fun mg => str_eqb (sender mg) (str "Alice"))
    (messages example_result) /\
  length (filteredMessages ascii_lower example_page_alice) =
  participant_count example_result (str "Alice") /\
  (1 <= length (filteredMessages ascii_lower example_page_alice))%nat.
Proof.
  apply (choosing_a_participant v8_date_valid ascii_lower eq_refl
           example_page_alice example_text example_result (str "Alice")).
  - vm_compute; reflexivity.
  - reflexivity.
  - reflexivity.
  - reflexivity.
  - left; reflexivity.
  - vm_compute; discriminate.
Defined.

Lemma search_finds_the_exact_text_witness :
  In example_alice
    (filteredMessages ascii_lower
       (mkPage None (Some example_result) [] false (str "Alice")
               (str "all"))).
Proof.
  apply (search_finds_the_exact_text ascii_lower
           (mkPage None (Some example_result) [] false (str "Alice")
                   (str "all"))
           example_result example_alice).
  - reflexivity.
  - reflexivity.
  - left; reflexivity.
  - right; reflexivity.
Defined.

Lemma exported_table_reads_back_witness :
  read_csv_document (csvContent example_result) =
  [str "Date"; str "Time"; str "Sender"; str "Message"]
  :: map (fun mg => [date mg; time mg; sender mg; message mg])
       (messages example_result).
Proof.
  apply (exported_table_reads_back v8_date_valid example_text
           example_result).
  - vm_compute; reflexivity.
  - repeat constructor; vm_compute; intros H;
      repeat (destruct H as [H|H]; [discriminate|]); exact H.
Defined.
